(** * Wiki Runner: the navigation orchestrator and its link solvers

    A shallow embedding of [src/App.tsx] (the run state machine), of the
    local vector solver and the three remote solvers, and the properties
    of the specification that were checked against them.

    Conventions of the embedding.
    - Strings are sequences of Latin-1 characters (code units below 256);
      [toLowerCase], [trim] and the class [\s] are the JavaScript built-ins
      restricted to such strings.
    - A JavaScript number is a binary64 float ([PrimFloat.float]): [+], [*]
      and [>] of the source are the operations of that type.
    - An [await] is a suspension point: the orchestrator is a step function
      over events, and what the outside world answers (the solver's result,
      a fetched page, the clock) arrives as the payload of an event.  The
      render that follows an event is complete before the next event.
    - [src/unnamed/part_001] holds wikiService, geminiService, claudeService
      and vectorService one after the other; the line numbers quoted for
      these services are those of that file.  wikiService only talks to the
      network: what it fetches is the payload of an event. *)

From Stdlib Require Import ZArith List String Ascii Bool Floats Lia.
From Stdlib Require Import DecimalString.
From stdpp Require Import base option list strings gmap sets.
Import ListNotations.

Set Warnings "-register-all,-clear-no-such-hyp".
Local Open Scope string_scope.
Local Open Scope list_scope.

(** ** JavaScript values and built-ins *)

Module JS.

(** What a [throw] carries: the constructor of the error and its message. *)
Inductive Exn : Type :=
| Error (message : string)
| TypeError (message : string)
| SyntaxError (message : string).

Definition message (e : Exn) : string :=
  match e with
  | Error m | TypeError m | SyntaxError m => m
  end.

(** The outcome of evaluating an expression or awaiting a promise. *)
Inductive Completion (A : Type) : Type :=
| Return (a : A)
| Throw (e : Exn).
Arguments Return {A} a.
Arguments Throw {A} e.

(** The capital letters: A-Z, and the accented capitals 192-222 of Latin-1
    but the multiplication sign 215.  Each has its small letter 32 above. *)
Definition is_upper (c : ascii) : bool :=
  let n := nat_of_ascii c in
  (Nat.leb 65 n && Nat.leb n 90)
  || (Nat.leb 192 n && Nat.leb n 222 && negb (Nat.eqb n 215)).

Definition lower_char (c : ascii) : ascii :=
  if is_upper c then ascii_of_nat (nat_of_ascii c + 32) else c.

(** [String.prototype.toLowerCase]. *)
Fixpoint toLowerCase (s : string) : string :=
  match s with
  | EmptyString => EmptyString
  | String c t => String (lower_char c) (toLowerCase t)
  end.

(** The characters [\s] and [trim] treat as white space: TAB, LF, VT, FF,
    CR, the space and the no-break space. *)
Definition is_space (c : ascii) : bool :=
  let n := nat_of_ascii c in
  (Nat.leb 9 n && Nat.leb n 13) || Nat.eqb n 32 || Nat.eqb n 160.

Fixpoint trimStart (s : string) : string :=
  match s with
  | EmptyString => EmptyString
  | String c t => if is_space c then trimStart t else s
  end.

Fixpoint trimEnd (s : string) : string :=
  match s with
  | EmptyString => EmptyString
  | String c t =>
      match trimEnd t with
      | EmptyString => if is_space c then EmptyString else String c EmptyString
      | t' => String c t'
      end
  end.

(** [String.prototype.trim]. *)
Definition trim (s : string) : string := trimEnd (trimStart s).

(** [s.replace(/ /g, '_')]. *)
Fixpoint replace_spaces (s : string) : string :=
  match s with
  | EmptyString => EmptyString
  | String c t =>
      String (if Ascii.eqb c " " then "_"%char else c) (replace_spaces t)
  end.

(** A string in a condition: the empty string is falsy. *)
Definition truthy_string (s : string) : bool :=
  negb (String.eqb s "").

(** [if (x)] on what [Array.prototype.find] gave: [undefined] and the
    empty string do not pass. *)
Definition mguard_truthy (x : option string) : option string :=
  match x with
  | Some s => if truthy_string s then Some s else None
  | None => None
  end.

(** The values a response of a remote model can parse to, and [undefined]. *)
Inductive Value : Type :=
| VUndefined
| VNull
| VBool (b : bool)
| VNumber (x : float)
| VString (s : string)
| VArray (items : list Value)
| VObject (fields : list (string * Value)).

(** ToBoolean: what [if (v)] and [v || w] test. *)
Definition truthy (v : Value) : bool :=
  match v with
  | VUndefined | VNull => false
  | VBool b => b
  | VNumber x => negb (PrimFloat.eqb x 0) && PrimFloat.eqb x x
  | VString s => truthy_string s
  | VArray _ | VObject _ => true
  end.

(** [v || w]. *)
Definition or_else (v w : Value) : Value := if truthy v then v else w.

(** [a[0]] of an array of strings. *)
Definition first (a : list string) : Value :=
  match a with
  | [] => VUndefined
  | l :: _ => VString l
  end.

(** [s.includes(c)] for a character [c]. *)
Fixpoint includes (c : ascii) (s : string) : bool :=
  match s with
  | EmptyString => false
  | String d t => Ascii.eqb d c || includes c t
  end.

(** The number NaN, which is what arithmetic on [undefined] gives. *)
Definition NaN : float := PrimFloat.nan.

(** [a[i]] used as a number: an index out of range reads [undefined],
    and [undefined] in a product or a sum is NaN. *)
Definition at_num (a : list float) (i : nat) : float :=
  default NaN (a !! i).

(** [x > y] on numbers: false as soon as one side is NaN. *)
Definition gt (x y : float) : bool := PrimFloat.ltb y x.

(** A number is comparable when it is not NaN: [x === x]. *)
Definition comparable (x : float) : Prop := PrimFloat.eqb x x = true.

End JS.

Export JS.

(** [Number.prototype.toFixed] on the numbers below 10^21 in magnitude: the
    integer [n] nearest to [x * 10^f], the larger one of two, printed with
    [f] decimals.  (At 10^21 and above the engine prints the exponent form,
    which is not reproduced.)  It is the engine's function wherever the
    solver is run on a concrete input below. *)
Module Number.

Definition pad (w : nat) (s : string) : string :=
  String.concat "" (List.repeat "0" (w - String.length s)) +:+ s.

Definition fixedDigits (n : Z) (f : nat) : string :=
  let d := pad (S f) (NilZero.string_of_uint (N.to_uint (Z.to_N n))) in
  let k := String.length d - f in
  match f with
  | O => d
  | _ => substring 0 k d +:+ "." +:+ substring k f d
  end.

(** The integer nearest to [m * 2^e * 10^f], halves going up. *)
Definition roundScaled (m : positive) (e : Z) (f : nat) : Z :=
  let v := (Z.pos m * 10 ^ Z.of_nat f)%Z in
  if (0 <=? e)%Z then (v * 2 ^ e)%Z
  else ((2 * v + 2 ^ (- e)) / 2 ^ (1 - e))%Z.

Definition toFixed (x : float) (f : nat) : string :=
  match Prim2SF x with
  | S754_nan => "NaN"
  | S754_infinity s => if s then "-Infinity" else "Infinity"
  | S754_zero _ => fixedDigits 0 f
  | S754_finite s m e =>
      (if s then "-" else "") +:+ fixedDigits (roundScaled m e f) f
  end.

End Number.

(** ** [src/types.ts] *)

Inductive SolverType : Type := GEMINI | VECTORS | OPENAI | CLAUDE.

Record WikiPage : Type := mkWikiPage {
  title : string;
  summary : string;
  links : list string;
  extract : option string
}.

Inductive GameStatus : Type :=
| IDLE | STARTING | PLAYING | PAUSED | SUCCESS | FAILED | LOADING_STEP.

#[global] Instance GameStatus_eq_dec : EqDecision GameStatus.
Proof. solve_decision. Defined.

#[global] Instance SolverType_eq_dec : EqDecision SolverType.
Proof. solve_decision. Defined.

(** What a solver answers.  [src/types.ts] declares both fields as strings;
    the remote solvers fill them from a parsed response without checking
    that, so the fields are values. *)
Record AIResponse : Type := mkAIResponse {
  reasoning : Value;
  selectedLink : Value
}.

Record GameStep : Type := mkGameStep {
  pageTitle : string;
  thought : Value;
  timestamp : Z;
  duration : float;
  solver : SolverType
}.

(** The double quote, for the texts that quote a title. *)
Definition dquote : string := String (ascii_of_nat 34) EmptyString.

(** ** The local solver: [vectorService] *)

Module vectorService.

(** The feature extractor is called on one text or on a batch. *)
Inductive ModelInput : Type :=
| Text (s : string)
| Texts (l : list string).

(** Its answer: a flat array of numbers and the dimensions. *)
Record Tensor : Type := mkTensor {
  data : list float;
  dims : list nat
}.

Definition Extractor : Type := ModelInput -> Completion Tensor.

(** The awaited calls of [getNextMove], in the order they are made. *)
Inductive Call : Type :=
| CallLoadModel
| CallModel (input : ModelInput).

(** A computation that awaits such calls: the calls it made, and how it
    ended. *)
Definition Traced (A : Type) : Type := (list Call * Completion A)%type.

Definition ret {A} (a : A) : Traced A := ([], Return a).
Definition throw {A} (e : Exn) : Traced A := ([], Throw e).
Definition await {A} (c : Call) (r : Completion A) : Traced A := ([c], r).
Definition bind {A B} (m : Traced A) (k : A -> Traced B) : Traced B :=
  match m with
  | (cs, Throw e) => (cs, Throw e)
  | (cs, Return a) => let (cs', r) := k a in (cs ++ cs', r)
  end.

Notation "'let*' x ':=' m 'in' k" := (bind m (fun x => k))
  (at level 10, x name, m at level 100, k at level 200).

(** [Array.from(new Set(l))]: the first occurrence of each string, in
    order; [seen] holds what the set already has. *)
Fixpoint uniq_from (seen : gset string) (l : list string) : list string :=
  match l with
  | [] => []
  | x :: t =>
      if decide (x ∈ seen) then uniq_from seen t
      else x :: uniq_from ({[x]} ∪ seen) t
  end.

Definition uniq (l : list string) : list string := uniq_from ∅ l.

(** Step 1 of [getNextMove], lines 269-287: the candidates and
    [isBacktracking]. *)
Definition candidateFilter (currentPage : WikiPage) (history : list string)
  : list string * bool :=
  let normalizedHistory : gset string :=
    list_to_set (toLowerCase <$> history) ∪ {[toLowerCase (title currentPage)]} in
  let allUniqueLinks := uniq (links currentPage) in
  let candidates :=
    filter (λ l, toLowerCase l ∉ normalizedHistory) allUniqueLinks in
  let '(candidates, isBacktracking) :=
    match candidates with
    | [] =>
        (filter (λ l, toLowerCase l ≠ toLowerCase (title currentPage))
           allUniqueLinks, true)
    | _ => (candidates, false)
    end in
  (take 200 candidates, isBacktracking).

(** The inner loop, lines 310-314: [dot] after [j] runs over
    [0 .. hiddenSize - 1], added in that order. *)
Definition dotProduct (targetVec data : list float) (offset hiddenSize : nat)
  : float :=
  fold_left
    (λ dot j, (dot + at_num targetVec j * at_num data (offset + j))%float)
    (seq 0 hiddenSize) 0%float.

(** The score of candidate [i], lines 310-314: the dot product of the
    target vector with the [i]-th row of the flat array. *)
Definition score (targetVec data : list float) (hiddenSize i : nat) : float :=
  dotProduct targetVec data (i * hiddenSize) hiddenSize.

(** The outer loop, lines 304-320, from index [i] on: [(maxScore, bestLink)]
    when it ends. *)
Fixpoint selectFrom (targetVec data : list float) (hiddenSize : nat)
    (i : nat) (candidates : list string) (maxScore : float) (bestLink : string)
  : float * string :=
  match candidates with
  | [] => (maxScore, bestLink)
  | c :: rest =>
      let dot := score targetVec data hiddenSize i in
      if gt dot maxScore
      then selectFrom targetVec data hiddenSize (S i) rest dot c
      else selectFrom targetVec data hiddenSize (S i) rest maxScore bestLink
  end.

(** Lines 301-320 on a list of candidates whose first is [c0].
    [embeddings.dims[1]] that is missing is [undefined], and [j < undefined]
    is false: the inner loop then runs zero times, as for a size of 0. *)
Definition selectBest (targetVec : list float) (embeddings : Tensor)
    (c0 : string) (candidates : list string) : float * string :=
  let hiddenSize := default 0 (dims embeddings !! 1) in
  selectFrom targetVec (data embeddings) hiddenSize 0 candidates (-2)%float c0.

Section WithRuntime.

(** [Number.prototype.toFixed], a built-in of the engine. *)
Variable toFixed : float -> nat -> string.

(** [loaded] is what [await loadModel()] gives: the pipeline, [null], or
    the exception of a failed load. *)
Definition getNextMove (loaded : Completion (option Extractor))
    (currentPage : WikiPage) (targetPage : string) (history : list string)
  : Traced AIResponse :=
  let targetLower := toLowerCase targetPage in
  let directLink :=
    List.find (λ l, String.eqb (toLowerCase l) targetLower)
      (links currentPage) in
  match mguard_truthy directLink with
  | Some directLink =>
      ret {| selectedLink := VString directLink;
             reasoning := VString
               ("Target identified! " +:+ dquote +:+ directLink +:+ dquote
                +:+ " is a direct match for the goal.") |}
  | None =>
      let* model := await CallLoadModel loaded in
      match model with
      | None => throw (Error "Model not loaded")
      | Some model =>
          let '(candidates, isBacktracking) :=
            candidateFilter currentPage history in
          match candidates with
          | [] =>
              ret {| selectedLink :=
                       or_else (first (links currentPage)) (VString "Main_Page");
                     reasoning := VString "No valid links found." |}
          | c0 :: _ =>
              let* targetOutput :=
                await (CallModel (Text targetPage)) (model (Text targetPage)) in
              let targetVec := data targetOutput in
              let* embeddings :=
                await (CallModel (Texts candidates)) (model (Texts candidates)) in
              let '(maxScore, bestLink) :=
                selectBest targetVec embeddings c0 candidates in
              let reasoningText :=
                "BERT Similarity Score: " +:+ toFixed maxScore 3 +:+ ". "
                +:+ dquote +:+ bestLink +:+ dquote
                +:+ " is semantically closest to "
                +:+ dquote +:+ targetPage +:+ dquote +:+ "." in
              let reasoningText :=
                if isBacktracking
                then reasoningText +:+
                     " (Note: All unique links were previously visited; forced to loop)."
                else reasoningText +:+
                     " (Visited pages excluded to prevent loops)." in
              ret {| selectedLink := VString bestLink;
                     reasoning := VString reasoningText |}
          end
      end
  end.

End WithRuntime.

(** *** [loadModel], lines 219-244

    The module keeps two cells, [extractor] and [isLoading].  A call of
    [loadModel] returns at once, or awaits the pipeline, or waits in the
    polling loop; [loading] and [waiting] count the calls that are
    suspended in these two places. *)
Record Loader : Type := mkLoader {
  extractor : option Extractor;
  isLoading : bool;
  loading : nat;
  waiting : nat
}.

(** The cells when the module has just been evaluated. *)
Definition unloaded : Loader :=
  {| extractor := None; isLoading := false; loading := 0; waiting := 0 |}.

Inductive LoadEvent : Type :=
(** [loadModel()] is called *)
| Invoke
(** the promise of [pipeline(...)] settles *)
| PipelineSettled (r : Completion Extractor)
(** the timer of 100 ms of a call in the polling loop fires *)
| PollTimer.

(** One event: the cells afterwards, and what the call that returns at this
    event returns, if one does.  The value of [loadModel] is [extractor],
    which is [null] as long as no load has succeeded. *)
Definition loadStep (m : Loader) (e : LoadEvent)
  : Loader * option (Completion (option Extractor)) :=
  match e with
  | Invoke =>
      match extractor m with
      | Some x => (m, Some (Return (Some x)))
      | None =>
          if isLoading m
          then (mkLoader None true (loading m) (S (waiting m)), None)
          else (mkLoader None true (S (loading m)) (waiting m), None)
      end
  | PipelineSettled r =>
      match loading m with
      | O => (m, None)
      | S n =>
          match r with
          | Return x =>
              (mkLoader (Some x) false n (waiting m), Some (Return (Some x)))
          | Throw err =>
              (mkLoader (extractor m) false n (waiting m), Some (Throw err))
          end
      end
  | PollTimer =>
      match waiting m with
      | O => (m, None)
      | S n =>
          if isLoading m then (m, None)
          else (mkLoader (extractor m) false (loading m) n,
                Some (Return (extractor m)))
      end
  end.

Definition loadRun (m : Loader) (events : list LoadEvent) : Loader :=
  fold_left (λ m e, (loadStep m e).1) events m.

(** What every event keeps: a pipeline is awaited exactly while [isLoading]
    is set, by one call, and then no extractor is there yet. *)
Definition loaderInvariant (m : Loader) : Prop :=
  (isLoading m = true ∧ loading m = 1%nat ∧ extractor m = None)
  ∨ (isLoading m = false ∧ loading m = 0%nat).

End vectorService.

(** ** The remote solvers *)

(** What the three remote solvers share: the read of a property of the
    parsed response, the [try]/[catch], and the answer built from the data. *)
Module remote.

(** [data.key]: reading a property of [undefined] or [null] throws; an
    object gives the value of its last field of that name (as [JSON.parse]
    keeps it), every other value has no such property.  The message is
    the one V8 prints. *)
Fixpoint field (key : string) (fields : list (string * Value)) : Value :=
  match fields with
  | [] => VUndefined
  | (k, v) :: rest =>
      if existsb (λ kv, String.eqb kv.1 key) rest then field key rest
      else if String.eqb k key then v else VUndefined
  end.

Definition get (data : Value) (key : string) : Completion Value :=
  match data with
  | VUndefined =>
      Throw (TypeError ("Cannot read properties of undefined (reading '"
                        +:+ key +:+ "')"))
  | VNull =>
      Throw (TypeError ("Cannot read properties of null (reading '"
                        +:+ key +:+ "')"))
  | VObject fields => Return (field key fields)
  | _ => Return VUndefined
  end.

(** [try { body } catch (e) { handler }]. *)
Definition try_catch {A} (body : Completion A) (handler : Exn -> Completion A)
  : Completion A :=
  match body with
  | Return a => Return a
  | Throw e => handler e
  end.

Definition and_then {A B} (m : Completion A) (k : A -> Completion B)
  : Completion B :=
  match m with
  | Return a => k a
  | Throw e => Throw e
  end.

(** [apiKey || process.env.KEY || ''], then [if (!key) throw]. *)
Definition resolveKey (apiKey envKey : option string) : Completion string :=
  let key :=
    match mguard_truthy apiKey with
    | Some k => k
    | None => default "" (mguard_truthy envKey)
    end in
  if truthy_string key then Return key
  else Throw (Error "API Key is missing. Please provide it in the settings.").

(** The object every solver returns from its [try] block. *)
Definition fromData (currentPage : WikiPage) (data : Value)
  : Completion AIResponse :=
  and_then (get data "reasoning") (λ r,
  and_then (get data "selectedLink") (λ l,
    Return {| reasoning := or_else r (VString "No reasoning provided.");
              selectedLink := or_else l (first (links currentPage)) |})).

(** The object every solver returns from its [catch] block. *)
Definition fallback (currentPage : WikiPage) : AIResponse :=
  {| reasoning := VString "Failed to parse AI response. Picking first link.";
     selectedLink := first (links currentPage) |}.

End remote.

Module geminiService.
Import remote.

(** The part of the SDK's response the solver reads: [response.text]. *)
Record GenerateContentResponse : Type := mkResponse {
  text : option string
}.

Section WithRuntime.

(** [JSON.parse], a built-in of the engine. *)
Variable JSON_parse : string -> Completion Value.

(** [generated] is what [await ai.models.generateContent(...)] gives. *)
Definition getNextMove (generated : Completion GenerateContentResponse)
    (currentPage : WikiPage) (targetPage : string) (history : list string)
    (apiKey envKey : option string) : Completion AIResponse :=
  and_then (resolveKey apiKey envKey) (λ _,
  and_then generated (λ response,
    try_catch
      (and_then (JSON_parse (default "{}" (mguard_truthy (text response))))
         (fromData currentPage))
      (λ _, Return (fallback currentPage)))).

End WithRuntime.

End geminiService.

Module openaiService.
Import remote.

(** The part of the completion the solver reads: for each choice its
    [message.content], a string or [null]. *)
Record ChatCompletion : Type := mkCompletion {
  choices : list (option string)
}.

(** [completion.choices[0].message.content]. *)
Definition firstContent (completion : ChatCompletion)
  : Completion (option string) :=
  match choices completion with
  | [] => Throw (TypeError "Cannot read properties of undefined (reading 'message')")
  | content :: _ => Return content
  end.

Section WithRuntime.

Variable JSON_parse : string -> Completion Value.

(** [completed] is what [await openai.chat.completions.create(...)]
    gives. *)
Definition getNextMove (completed : Completion ChatCompletion)
    (currentPage : WikiPage) (targetPage : string) (history : list string)
    (apiKey envKey : option string) : Completion AIResponse :=
  and_then (resolveKey apiKey envKey) (λ _,
  and_then completed (λ completion,
    try_catch
      (and_then (firstContent completion) (λ content,
       and_then (JSON_parse (default "{}" (mguard_truthy content)))
         (fromData currentPage)))
      (λ _, Return (fallback currentPage)))).

End WithRuntime.

End openaiService.

Module claudeService.
Import remote.

(** The part of the message the solver reads: for each content block its
    [text], which a block of another kind does not have. *)
Record Message : Type := mkMessage {
  content : list (option string)
}.

(** [(message.content[0] as any).text]: [undefined] for a block without
    text, a TypeError when there is no block. *)
Definition firstText (message : Message) : Completion (option string) :=
  match content message with
  | [] => Throw (TypeError "Cannot read properties of undefined (reading 'text')")
  | t :: _ => Return t
  end.

(** [s.replace(/FENCE\s*/g, '')]: [skip] counts the characters of a matched
    fence still to drop, [tail] tells that the white space after a fence is
    being dropped. *)
Fixpoint stripFence (fence : string) (skip : nat) (tail : bool) (s : string)
  : string :=
  match s with
  | EmptyString => EmptyString
  | String c t =>
      match skip with
      | S k => stripFence fence k true t
      | O =>
          if tail && is_space c then stripFence fence 0 true t
          else if String.prefix fence s
               then stripFence fence (String.length fence - 1) true t
               else String c (stripFence fence 0 false t)
      end
  end.

Definition fence : string := "```".
Definition fenceJson : string := "```json".

Fixpoint fromFirstBrace (s : string) : option string :=
  match s with
  | EmptyString => None
  | String c t => if Ascii.eqb c "{" then Some s else fromFirstBrace t
  end.

Fixpoint uptoLastBrace (s : string) : option string :=
  match s with
  | EmptyString => None
  | String c t =>
      match uptoLastBrace t with
      | Some t' => Some (String c t')
      | None => if Ascii.eqb c "}" then Some (String c EmptyString) else None
      end
  end.

(** [content.match(/\{[\s\S]*\}/)]: from the first [{] to the last [}]. *)
Definition jsonMatch (s : string) : option string :=
  match fromFirstBrace s with
  | Some s' => uptoLastBrace s'
  | None => None
  end.

(** Lines 180-190: the text that goes to [JSON.parse]. *)
Definition cleanContent (raw : option string) : Completion string :=
  match raw with
  | None =>
      Throw (TypeError "Cannot read properties of undefined (reading 'replace')")
  | Some raw =>
      let content :=
        trim (stripFence fence 0 false (stripFence fenceJson 0 false raw)) in
      Return (default content (jsonMatch content))
  end.

Section WithRuntime.

Variable JSON_parse : string -> Completion Value.

(** [created] is what [await anthropic.messages.create(...)] gives.  The
    [catch] block reads [message.content[0].text] again for its log
    before it returns. *)
Definition getNextMove (created : Completion Message)
    (currentPage : WikiPage) (targetPage : string) (history : list string)
    (apiKey envKey : option string) : Completion AIResponse :=
  and_then (resolveKey apiKey envKey) (λ _,
  and_then created (λ message,
    try_catch
      (and_then (firstText message) (λ raw,
       and_then (cleanContent raw) (λ content,
       and_then (JSON_parse (if truthy_string content then content else "{}"))
         (fromData currentPage))))
      (λ _,
         and_then (firstText message) (λ _,
           Return (fallback currentPage))))).

End WithRuntime.

End claudeService.

(** ** The orchestrator: [src/App.tsx] *)

Module App.

Definition normalizeTitle (title : string) : string :=
  toLowerCase (replace_spaces (trim title)).

(** [normalizeTitle(move.selectedLink)]: the link is whatever the solver
    returned; [title.trim] of a value that is no string throws. *)
Definition normalizeLink (link : Value) : Completion string :=
  match link with
  | VString title => Return (normalizeTitle title)
  | VUndefined =>
      Throw (TypeError "Cannot read properties of undefined (reading 'trim')")
  | VNull =>
      Throw (TypeError "Cannot read properties of null (reading 'trim')")
  | _ => Throw (TypeError "title.trim is not a function")
  end.

(** What React shows as a child, [{step.thought}] of [StepCard] at line
    116: a string or a number is shown, [undefined], [null] and a boolean
    show nothing, an array shows its items, and an object that is no
    element makes the render throw.  A render that throws unmounts the
    component. *)
Fixpoint validChild (v : Value) : bool :=
  match v with
  | VObject _ => false
  | VArray items => forallb validChild items
  | _ => true
  end.

(** [useState(40)], never set again. *)
Definition maxSteps : nat := 40.

(** An [async] function of the component that is suspended at an [await],
    with the variables its closure holds and its continuation needs. *)
Inductive Suspended : Type :=
(** [handleStartGame] at line 207, fetching the start page *)
| StartFetch (requested : string)
(** [executeMove] at lines 248-278, awaiting the solver *)
| SolverCall (currentWikiPage : WikiPage) (targetPage : string)
    (path : list string) (solver : SolverType) (startTime : float)
(** [executeMove] at line 297, the pause of 1500 ms *)
| Pacing (move : AIResponse) (targetNorm : string)
(** [executeMove] at line 300, fetching the page that matches the target *)
| FinalFetch (requested : Value)
(** [executeMove] at line 310, fetching while paused *)
| PausedFetch (requested : Value)
(** [executeMove] at line 316 *)
| NextFetch (requested : Value).

(** The state of the component: its [useState] cells that the run reads
    or writes, the [statusRef], and the calls in flight. *)
Record State : Type := mkState {
  startPage : string;
  targetPage : string;
  currentWikiPage : option WikiPage;
  history : list GameStep;
  status : GameStatus;
  error : option string;
  highlightedLink : option Value;
  solver : SolverType;
  statusRef : GameStatus;
  inflight : list Suspended
}.

(** The setters of the [useState] cells. *)
Definition setStartPage (v : string) (s : State) : State :=
  mkState v (targetPage s) (currentWikiPage s) (history s) (status s)
    (error s) (highlightedLink s) (solver s) (statusRef s) (inflight s).
Definition setTargetPage (v : string) (s : State) : State :=
  mkState (startPage s) v (currentWikiPage s) (history s) (status s)
    (error s) (highlightedLink s) (solver s) (statusRef s) (inflight s).
Definition setCurrentWikiPage (v : option WikiPage) (s : State) : State :=
  mkState (startPage s) (targetPage s) v (history s) (status s)
    (error s) (highlightedLink s) (solver s) (statusRef s) (inflight s).
Definition setHistory (f : list GameStep -> list GameStep) (s : State) : State :=
  mkState (startPage s) (targetPage s) (currentWikiPage s) (f (history s))
    (status s) (error s) (highlightedLink s) (solver s) (statusRef s)
    (inflight s).
Definition setStatus (v : GameStatus) (s : State) : State :=
  mkState (startPage s) (targetPage s) (currentWikiPage s) (history s) v
    (error s) (highlightedLink s) (solver s) (statusRef s) (inflight s).
Definition setError (v : option string) (s : State) : State :=
  mkState (startPage s) (targetPage s) (currentWikiPage s) (history s)
    (status s) v (highlightedLink s) (solver s) (statusRef s) (inflight s).
Definition setHighlightedLink (v : option Value) (s : State) : State :=
  mkState (startPage s) (targetPage s) (currentWikiPage s) (history s)
    (status s) (error s) v (solver s) (statusRef s) (inflight s).
Definition setSolver (v : SolverType) (s : State) : State :=
  mkState (startPage s) (targetPage s) (currentWikiPage s) (history s)
    (status s) (error s) (highlightedLink s) v (statusRef s) (inflight s).

(** The effect of lines 149-151, run after a render:
    [statusRef.current = status]. *)
Definition syncStatusRef (s : State) : State :=
  mkState (startPage s) (targetPage s) (currentWikiPage s) (history s)
    (status s) (error s) (highlightedLink s) (solver s) (status s)
    (inflight s).

(** The calls in flight: one more, the [k]-th replaced (it reached its
    next [await]), the [k]-th gone (it returned). *)
Definition suspend (c : Suspended) (s : State) : State :=
  mkState (startPage s) (targetPage s) (currentWikiPage s) (history s)
    (status s) (error s) (highlightedLink s) (solver s) (statusRef s)
    (inflight s ++ [c]).
Definition resuspend (k : nat) (c : Suspended) (s : State) : State :=
  mkState (startPage s) (targetPage s) (currentWikiPage s) (history s)
    (status s) (error s) (highlightedLink s) (solver s) (statusRef s)
    (<[k := c]> (inflight s)).
Definition finish (k : nat) (s : State) : State :=
  mkState (startPage s) (targetPage s) (currentWikiPage s) (history s)
    (status s) (error s) (highlightedLink s) (solver s) (statusRef s)
    (delete k (inflight s)).

(** The component when it mounts. *)
Definition initial : State :=
  {| startPage := "Apollo 11"; targetPage := "Cheese";
     currentWikiPage := None; history := []; status := IDLE; error := None;
     highlightedLink := None; solver := GEMINI; statusRef := IDLE;
     inflight := [] |}.

(** [handleStartGame] up to its [await]. *)
Definition handleStartGame (s : State) : State :=
  suspend (StartFetch (startPage s))
    (setHighlightedLink None
       (setHistory (λ _, []) (setError None (setStatus STARTING s)))).

Definition resetGame (s : State) : State :=
  setHighlightedLink None
    (setError None
       (setCurrentWikiPage None (setHistory (λ _, []) (setStatus IDLE s)))).

(** The [catch] of [executeMove], lines 321-325. *)
Definition solverError (err : Exn) (s : State) : State :=
  setStatus FAILED (setError (Some ("Solver Error: " +:+ message err)) s).

(** [executeMove] up to its first [await], lines 225-278; [startTime] is
    what [performance.now()] reads. *)
Definition executeMove (startTime : float) (s : State) : State :=
  match currentWikiPage s with
  | None => s
  | Some page =>
      if negb (bool_decide (status s = PLAYING)) then s
      else
        let currentNorm := normalizeTitle (title page) in
        let targetNorm := normalizeTitle (targetPage s) in
        if String.eqb currentNorm targetNorm then setStatus SUCCESS s
        else if Nat.leb maxSteps (length (history s)) then
          setError
            (Some "Maximum attempts reached without finding the target.")
            (setStatus FAILED s)
        else
          suspend
            (SolverCall page (targetPage s) (pageTitle <$> history s)
               (solver s) startTime)
            (setStatus LOADING_STEP s)
  end.

(** What the outside answers to a call in flight. *)
Inductive Answer : Type :=
(** [wikiService.fetchPageData] settled *)
| Page (r : Completion WikiPage)
(** the solver settled; [endTime] and [now] are what [performance.now()]
    and [Date.now()] then read *)
| Move (r : Completion AIResponse) (endTime : float) (now : Z)
(** the timer of 1500 ms fired *)
| Elapsed.

(** The continuation of a suspended call on its answer: its code up to the
    next [await] or to its end.  An answer of the wrong kind is none. *)
Definition resume (k : nat) (c : Suspended) (a : Answer) (s : State) : State :=
  match c, a with
  | StartFetch _, Page (Return page) =>
      finish k (setStatus PLAYING (setCurrentWikiPage (Some page) s))
  | StartFetch _, Page (Throw err) =>
      finish k
        (setStatus IDLE
           (setError (Some ("Failed to start: " +:+ message err)) s))
  | SolverCall page target _ solver startTime, Move (Return move) endTime now =>
      let duration := (endTime - startTime)%float in
      let newStep :=
        mkGameStep (title page) (reasoning move) now duration solver in
      resuspend k (Pacing move (normalizeTitle target))
        (setHistory (λ prev, prev ++ [newStep])
           (setHighlightedLink (Some (selectedLink move)) s))
  | SolverCall _ _ _ _ _, Move (Throw err) _ _ => finish k (solverError err s)
  | Pacing move targetNorm, Elapsed =>
      match normalizeLink (selectedLink move) with
      | Throw err => finish k (solverError err s)
      | Return linkNorm =>
          if String.eqb linkNorm targetNorm
          then resuspend k (FinalFetch (selectedLink move)) s
          else if bool_decide (statusRef s = PAUSED)
          then resuspend k (PausedFetch (selectedLink move)) s
          else resuspend k (NextFetch (selectedLink move)) s
      end
  | FinalFetch _, Page (Return finalPage) =>
      finish k
        (setStatus SUCCESS
           (setHighlightedLink None (setCurrentWikiPage (Some finalPage) s)))
  | PausedFetch _, Page (Return nextPage) =>
      finish k
        (setHighlightedLink None (setCurrentWikiPage (Some nextPage) s))
  | NextFetch _, Page (Return nextPage) =>
      finish k
        (setStatus PLAYING
           (setHighlightedLink None (setCurrentWikiPage (Some nextPage) s)))
  | FinalFetch _, Page (Throw err)
  | PausedFetch _, Page (Throw err)
  | NextFetch _, Page (Throw err) => finish k (solverError err s)
  | _, _ => s
  end.

(** What can happen to the component. *)
Inductive Event : Type :=
(** the Engage button of the configuration panel, shown when idle *)
| ClickEngage
(** the stop / resume button of the header, line 410 *)
| ClickStopResume
(** the home buttons, [resetGame] *)
| ClickAbort
(** the tab goes to the background, lines 183-191 *)
| TabHidden
(** the timer of 100 ms of lines 328-333 fires and runs [executeMove] *)
| Tick (startTime : float)
(** the [k]-th call in flight gets its answer *)
| Settle (k : nat) (a : Answer)
(** the inputs of the configuration panel, and the random-title buttons
    whose promise may settle later *)
| InputStartPage (v : string)
| InputTargetPage (v : string)
(** the solver buttons of the configuration panel *)
| ClickSolver (v : SolverType)
(** the timer of five minutes of lines 174-180: the page reloads *)
| Reload.

(** One event, handled to its end: the cells after it.  An event that
    cannot happen in a state (a button that is not shown, a timer that is
    not set) leaves it as it is.

    The render that follows is taken to succeed.  It does not when a Step
    holds a thought that is no [validChild], and the highlight effect of
    lines 336-355 throws on a truthy highlighted link that is no string
    ([normalizeTitle] at line 343): the component then unmounts, and the
    cells below describe nothing any more.  The properties that follow a
    solver's answer into the states after it are stated for answers with a
    [validChild] as rationale and a string as link. *)
Definition handle (e : Event) (s : State) : State :=
  match e with
  | ClickEngage =>
      if bool_decide (status s = IDLE) then handleStartGame s else s
  | ClickStopResume =>
      if bool_decide (status s = IDLE) then s
      else if bool_decide (status s = PAUSED) then setStatus PLAYING s
      else setStatus PAUSED s
  | ClickAbort =>
      if bool_decide (status s = IDLE) then s else resetGame s
  | TabHidden =>
      if bool_decide (status s = PLAYING) then setStatus PAUSED s else s
  | Tick startTime =>
      if bool_decide (status s = PLAYING) then executeMove startTime s else s
  | Settle k a =>
      match inflight s !! k with
      | Some c => resume k c a s
      | None => s
      end
  | InputStartPage v => setStartPage v s
  | InputTargetPage v => setTargetPage v s
  | ClickSolver v =>
      if bool_decide (status s = IDLE) then setSolver v s else s
  | Reload => initial
  end.

(** The event, and the effect of lines 149-151 after the render. *)
Definition step (s : State) (e : Event) : State :=
  syncStatusRef (handle e s).

(** A run: the events in the order they happen. *)
Definition run (s : State) (events : list Event) : State :=
  fold_left step events s.

(** One hop without interference: the timer fires, then the call it
    suspends (the [k]-th in flight) gets the solver's move, the end of the
    pause, and the fetched page. *)
Definition hop (k : nat) (startTime endTime : float) (now : Z)
    (move : AIResponse) (next : WikiPage) : list Event :=
  [Tick startTime; Settle k (Move (Return move) endTime now);
   Settle k Elapsed; Settle k (Page (Return next))].

(** A hop during which the stop button is pressed: [early] while the solver
    call is in flight, otherwise during the pause of 1500 ms that follows. *)
Definition pausedHop (early : bool) (k : nat) (startTime endTime : float)
    (now : Z) (move : AIResponse) (next : WikiPage) : list Event :=
  if early
  then [Tick startTime; ClickStopResume;
        Settle k (Move (Return move) endTime now);
        Settle k Elapsed; Settle k (Page (Return next))]
  else [Tick startTime; Settle k (Move (Return move) endTime now);
        ClickStopResume;
        Settle k Elapsed; Settle k (Page (Return next))].

(** No tick while a solver call is in flight: the runs in which steps do
    not overlap. *)
Definition awaitsSolver (c : Suspended) : bool :=
  match c with
  | SolverCall _ _ _ _ _ => true
  | _ => false
  end.

(** How many solver calls are in flight. *)
Definition solverCalls (s : State) : nat :=
  length (List.filter awaitsSolver (inflight s)).

Fixpoint sequential (s : State) (events : list Event) : Prop :=
  match events with
  | [] => True
  | e :: rest =>
      match e with
      | Tick _ => existsb awaitsSolver (inflight s) = false
      | _ => True
      end
      ∧ sequential (step s e) rest
  end.

End App.

(** ** Sample inputs

    The pages, models and answers on which the properties below are run. *)

Module Samples.
Import vectorService.

(** A page without outgoing links. *)
Definition pageIsland : WikiPage :=
  {| title := "Island"; summary := ""; links := []; extract := None |}.

(** A model with two dimensions: the target lies on the first axis, and the
    rows of a batch are (1, 0), (0.5, 0), (0.5, 0), ... *)
Definition model2 : Extractor :=
  λ input,
    match input with
    | Text _ => Return (mkTensor [1; 0]%float [1; 2])
    | Texts l =>
        Return
          (mkTensor
             (match l with
              | [] => []
              | _ :: rest => [1; 0]%float ++ concat ((λ _, [0.5; 0]%float) <$> rest)
              end)
             [length l; 2])
    end.

(** A page that links to an exact title and to its underscore spelling. *)
Definition pageHub : WikiPage :=
  {| title := "Hub"; summary := ""; links := ["Other"; "Foo_Bar"];
     extract := None |}.

Definition pageApollo : WikiPage :=
  {| title := "Apollo 11"; summary := ""; links := ["Moon"; "Cheese"];
     extract := None |}.

Definition pageMoon : WikiPage :=
  {| title := "Moon"; summary := ""; links := ["Apollo 11"]; extract := None |}.

Definition pageCheese : WikiPage :=
  {| title := "Cheese"; summary := ""; links := ["Milk"]; extract := None |}.

Definition pageMain : WikiPage :=
  {| title := "Main Page"; summary := ""; links := ["Wikipedia"];
     extract := None |}.

Definition moveTo (link : string) : AIResponse :=
  {| reasoning := VString "closest"; selectedLink := VString link |}.

(** The run starts on [Apollo 11], the default start page, with the
    default target [Cheese]. *)
Definition started : list App.Event :=
  [App.ClickEngage; App.Settle 0 (App.Page (Return pageApollo))].

(** Two hops, to [Moon] and back. *)
Definition lap : list App.Event :=
  App.hop 0 0 250 1000 (moveTo "Moon") pageMoon
  ++ App.hop 0 0 250 2000 (moveTo "Apollo 11") pageApollo.

(** 39 hops, and then the stop button pressed twice while the solver call
    of the 40th step is in flight: the timer fires again, a second call
    starts, and both calls return. *)
Definition overlappingSteps : list App.Event :=
  started ++ concat (replicate 19 lap)
  ++ App.hop 0 0 250 3000 (moveTo "Moon") pageMoon
  ++ [App.Tick 0; App.ClickStopResume; App.ClickStopResume; App.Tick 100;
      App.Settle 0 (App.Move (Return (moveTo "Apollo 11")) 250 4000);
      App.Settle 1 (App.Move (Return (moveTo "Apollo 11")) 350 4100)].

(** A run of the local solver from a page without links: the answer of
    the solver is the one [vectorService.getNextMove] computes there. *)
Definition islandRun : list App.Event :=
  [App.ClickSolver VECTORS; App.InputStartPage "Island"; App.ClickEngage;
   App.Settle 0 (App.Page (Return pageIsland));
   App.Tick 0;
   App.Settle 0
     (App.Move
        (getNextMove Number.toFixed (Return (Some model2)) pageIsland "Cheese" []).2
        250 1000);
   App.Settle 0 App.Elapsed;
   App.Settle 0 (App.Page (Return pageMain))].

(** The stop button pressed while the solver is choosing the target. *)
Definition pausedOnLastHop : list App.Event :=
  started
  ++ [App.Tick 0; App.ClickStopResume;
      App.Settle 0 (App.Move (Return (moveTo "Cheese")) 250 1000);
      App.Settle 0 App.Elapsed;
      App.Settle 0 (App.Page (Return pageCheese))].

(** The stop button pressed while the next page is being fetched. *)
Definition pausedDuringFetch : list App.Event :=
  started
  ++ [App.Tick 0;
      App.Settle 0 (App.Move (Return (moveTo "Moon")) 250 1000);
      App.Settle 0 App.Elapsed;
      App.ClickStopResume;
      App.Settle 0 (App.Page (Return pageMoon))].

(** A stand-in for [JSON.parse] where a property is run on a concrete
    text: it agrees with [JSON.parse] on the five documents it accepts and
    on every text that is not JSON (the message of the SyntaxError is
    shortened); other JSON texts are not given to it. *)
Definition parseLiteral (text : string) : Completion Value :=
  if String.eqb text "{}" then Return (VObject [])
  else if String.eqb text "[]" then Return (VArray [])
  else if String.eqb text "null" then Return VNull
  else if String.eqb text "true" then Return (VBool true)
  else if String.eqb text "false" then Return (VBool false)
  else Throw (SyntaxError "Unexpected token").

(** Three candidates scored 0.5, 1 and 1 against the target (1, 0). *)
Definition embeddings3 : Tensor :=
  mkTensor [0.5; 0; 1; 0; 1; 0]%float [3; 2].

End Samples.

(** * Properties *)

(** ** The order of JavaScript numbers

    [<] and [<=] on binary64 floats, through their specification over
    [spec_float]: on numbers that are not NaN they form a total preorder. *)

Section FloatOrder.

Local Open Scope float_scope.

Local Ltac cmp_cases :=
  repeat match goal with
    | |- context [Z.compare ?a ?b] => destruct (Z.compare_spec a b)
    | |- context [Pos.compare_cont Eq ?a ?b] =>
        change (Pos.compare_cont Eq a b) with (Pos.compare a b);
        destruct (Pos.compare_spec a b)
    | H : context [Z.compare ?a ?b] |- _ => destruct (Z.compare_spec a b)
    | H : context [Pos.compare_cont Eq ?a ?b] |- _ =>
        change (Pos.compare_cont Eq a b) with (Pos.compare a b) in H;
        destruct (Pos.compare_spec a b)
    end;
  simpl in *; subst; try (discriminate || reflexivity || lia).

Lemma SFleb_ltb_trans x y z :
  SFleb x y = true -> SFltb y z = true -> SFltb x z = true.
Proof.
  unfold SFleb, SFltb.
  destruct x as [[]|[]| |[] mx ex], y as [[]|[]| |[] my ey],
    z as [[]|[]| |[] mz ez]; simpl; try (discriminate || reflexivity);
    intros H1 H2; cmp_cases.
Qed.

Lemma SFltb_leb x y : SFltb x y = true -> SFleb x y = true.
Proof. unfold SFleb, SFltb. destruct (SFcompare x y) as [[]|]; done. Qed.

Lemma SFltb_false_leb x y :
  SFeqb x x = true -> SFeqb y y = true ->
  SFltb x y = false -> SFleb y x = true.
Proof.
  unfold SFleb, SFltb, SFeqb.
  destruct x as [[]|[]| |[] mx ex], y as [[]|[]| |[] my ey];
    simpl; try (discriminate || reflexivity);
    intros _ _ H; cmp_cases.
Qed.

Lemma SFeqb_leb_refl x : SFeqb x x = true -> SFleb x x = true.
Proof. unfold SFleb, SFeqb. destruct (SFcompare x x) as [[]|]; done. Qed.

Lemma SFltb_not_nan x y : SFltb x y = true -> SFeqb y y = true.
Proof.
  unfold SFltb, SFeqb.
  destruct x as [[]|[]| |[] mx ex], y as [[]|[]| |[] my ey];
    simpl; try (discriminate || reflexivity); intros _; cmp_cases.
Qed.

Lemma SFltb_irrefl x : SFltb x x = false.
Proof.
  unfold SFltb.
  destruct x as [[]|[]| |[] mx ex]; simpl; try reflexivity; cmp_cases.
Qed.

Lemma ltb_comparable x y : (x <? y) = true -> comparable y.
Proof.
  unfold comparable. rewrite FloatAxioms.ltb_spec, FloatAxioms.eqb_spec. apply SFltb_not_nan.
Qed.

Lemma leb_ltb_trans x y z :
  (x <=? y) = true -> (y <? z) = true -> (x <? z) = true.
Proof. rewrite FloatAxioms.leb_spec, !FloatAxioms.ltb_spec. apply SFleb_ltb_trans. Qed.

Lemma ltb_leb x y : (x <? y) = true -> (x <=? y) = true.
Proof. rewrite FloatAxioms.leb_spec, FloatAxioms.ltb_spec. apply SFltb_leb. Qed.

Lemma ltb_trans x y z : (x <? y) = true -> (y <? z) = true -> (x <? z) = true.
Proof. intros H. apply leb_ltb_trans, ltb_leb, H. Qed.

Lemma ltb_irrefl x : (x <? x) = false.
Proof. rewrite FloatAxioms.ltb_spec. apply SFltb_irrefl. Qed.

Lemma leb_refl x : comparable x -> (x <=? x) = true.
Proof. unfold comparable. rewrite FloatAxioms.leb_spec, FloatAxioms.eqb_spec. apply SFeqb_leb_refl. Qed.

Lemma not_gt_leb x y :
  comparable x -> comparable y -> gt x y = false -> (x <=? y) = true.
Proof.
  unfold comparable, gt. rewrite FloatAxioms.leb_spec, FloatAxioms.ltb_spec, !FloatAxioms.eqb_spec.
  intros Hx Hy. now apply SFltb_false_leb.
Qed.

End FloatOrder.

(** ** The candidate filter of the local solver *)

Section CandidateFilter.
Import vectorService Samples.

(** The filter in the shape of its source: the pass over the unvisited
    links, the fallback when that pass is empty, the cut at 200. *)
Lemma candidateFilter_cases (currentPage : WikiPage) (history : list string) :
  let visited : gset string :=
    list_to_set (toLowerCase <$> history) ∪ {[toLowerCase (title currentPage)]} in
  let fresh := filter (λ l, toLowerCase l ∉ visited) (uniq (links currentPage)) in
  (fresh ≠ [] ∧ candidateFilter currentPage history = (take 200 fresh, false))
  ∨ (fresh = [] ∧
     candidateFilter currentPage history =
       (take 200 (filter (λ l, toLowerCase l ≠ toLowerCase (title currentPage))
                    (uniq (links currentPage))), true)).
Proof.
  intros visited fresh. unfold candidateFilter. fold visited. fold fresh.
  destruct fresh; [right|left]; done.
Qed.

Lemma uniq_from_elem (seen : gset string) (l : list string) (x : string) :
  x ∈ uniq_from seen l ↔ x ∈ l ∧ x ∉ seen.
Proof.
  revert seen. induction l as [|y t IH]; intros seen; simpl.
  - set_solver.
  - destruct (decide (y ∈ seen)) as [Hy|Hy].
    + rewrite IH. set_solver.
    + rewrite elem_of_cons, IH. destruct (decide (x = y)); set_solver.
Qed.

Lemma uniq_elem (l : list string) (x : string) : x ∈ uniq l ↔ x ∈ l.
Proof. unfold uniq. rewrite uniq_from_elem. set_solver. Qed.

Lemma uniq_from_NoDup (seen : gset string) (l : list string) :
  NoDup (uniq_from seen l).
Proof.
  revert seen. induction l as [|y t IH]; intros seen; simpl.
  - constructor.
  - destruct (decide (y ∈ seen)); [apply IH|].
    constructor; [|apply IH]. rewrite uniq_from_elem. set_solver.
Qed.

(** The candidates are distinct links of the page, at most 200 of them. *)
Lemma candidateFilter_sound (currentPage : WikiPage) (history : list string)
    (candidates : list string) (isBacktracking : bool) :
  candidateFilter currentPage history = (candidates, isBacktracking) ->
  NoDup candidates ∧ candidates ⊆ links currentPage ∧ (length candidates ≤ 200)%nat.
Proof.
  intros H.
  destruct (candidateFilter_cases currentPage history) as [[_ E]|[_ E]];
    rewrite E in H; injection H as <- <-;
    (split; [eapply sublist_NoDup, sublist_take;
             apply NoDup_filter, uniq_from_NoDup|]);
    (split; [|rewrite length_take; lia]);
    intros x Hx; apply subseteq_take in Hx;
    apply list_elem_of_filter in Hx as [_ Hx];
    exact (proj1 (uniq_elem _ _) Hx).
Qed.

(** C3, as the code has it: without the fallback, no candidate equals a
    title of the history or the title of the current page once both are
    lower-cased.  (Lower-casing is the whole of the solver's
    canonical form: it neither trims nor identifies spaces with
    underscores.) *)
Theorem candidateFilter_avoids_visited (currentPage : WikiPage)
    (history candidates : list string) (l v : string) :
  candidateFilter currentPage history = (candidates, false) ->
  l ∈ candidates ->
  v ∈ history ++ [title currentPage] ->
  toLowerCase l ≠ toLowerCase v.
Proof.
  intros H Hl Hv.
  destruct (candidateFilter_cases currentPage history) as [[_ E]|[_ E]];
    rewrite E in H; [|discriminate].
  injection H as <-. apply subseteq_take in Hl.
  apply list_elem_of_filter in Hl as [Hl _].
  intros Heq. apply Hl. rewrite Heq.
  apply elem_of_app in Hv as [Hv|Hv].
  - apply elem_of_union_l, elem_of_list_to_set. now apply list_elem_of_fmap_2.
  - apply list_elem_of_singleton in Hv as ->. set_solver.
Qed.

Definition pageStart : WikiPage :=
  {| title := "Start"; summary := ""; links := ["Moon"; "Foo_Bar"; "Moon"];
     extract := None |}.

Lemma candidateFilter_avoids_visited_witness :
  toLowerCase "Moon" ≠ toLowerCase "Apollo 11".
Proof.
  apply (candidateFilter_avoids_visited pageStart ["Apollo 11"]
           ["Moon"; "Foo_Bar"] "Moon" "Apollo 11").
  - vm_compute. reflexivity.
  - apply (bool_decide_unpack _). vm_compute. exact I.
  - apply (bool_decide_unpack _). vm_compute. exact I.
Defined.

(** C3 as the specification states it fails: with the canonical form of
    the specification (trim, fold case, spaces as underscores, which is
    [App.normalizeTitle]) the candidate [Foo_Bar] is a duplicate of the
    visited [Foo Bar], and the filter keeps it without falling back. *)
Lemma candidateFilter_keeps_canonical_duplicate :
  candidateFilter pageStart ["Foo Bar"] = (["Moon"; "Foo_Bar"], false)
  ∧ "Foo_Bar" ∈ ["Moon"; "Foo_Bar"]
  ∧ "Foo Bar" ∈ ["Foo Bar"] ++ [title pageStart]
  ∧ App.normalizeTitle "Foo_Bar" = App.normalizeTitle "Foo Bar".
Proof.
  split; [vm_compute; reflexivity|].
  split; [set_solver|]. split; [set_solver|]. reflexivity.
Qed.

(** Scenarios B and C of the specification: the links [B; C] of [A] pass
    in order, without fallback; the single visited link [B] comes back by the
    fallback. *)
Example candidateFilter_scenario_B :
  candidateFilter (mkWikiPage "A" "" ["B"; "C"] None) [] = (["B"; "C"], false).
Proof. vm_compute. reflexivity. Qed.

Example candidateFilter_scenario_C :
  candidateFilter (mkWikiPage "A" "" ["B"] None) ["B"] = (["B"], true).
Proof. vm_compute. reflexivity. Qed.

End CandidateFilter.

(** ** The similarity selection of the local solver *)

Section Selection.
Import vectorService Samples.
Local Open Scope float_scope.

Variables (targetVec data : list float) (hiddenSize : nat).

Local Abbreviation sc := (score targetVec data hiddenSize).
Local Abbreviation loop := (selectFrom targetVec data hiddenSize).

(** The loop returns the link it was started with or one of the candidates
    it ran over, whatever the scores are. *)
Lemma selectFrom_member (candidates : list string) :
  ∀ (i : nat) (maxScore : float) (bestLink : string),
    (loop i candidates maxScore bestLink).2 = bestLink
    ∨ (loop i candidates maxScore bestLink).2 ∈ candidates.
Proof.
  induction candidates as [|c rest IH]; intros i m b; simpl.
  - now left.
  - destruct (gt (sc i) m).
    + right. destruct (IH (S i) (sc i) c) as [->|H].
      * apply elem_of_cons. now left.
      * apply elem_of_cons. now right.
    + destruct (IH (S i) m b) as [->|H]; [now left|right].
      apply elem_of_cons. now right.
Qed.

(** When no score compares greater than the running maximum (every score is
    NaN, say), the loop keeps what it was started with. *)
Lemma selectFrom_incomparable (candidates : list string) :
  ∀ (i : nat) (maxScore : float) (bestLink : string),
    (∀ j, (j < length candidates)%nat → gt (sc (i + j)) maxScore = false) →
    loop i candidates maxScore bestLink = (maxScore, bestLink).
Proof.
  induction candidates as [|c rest IH]; intros i m b H; simpl; [done|].
  pose proof (H 0%nat ltac:(simpl; lia)) as H0.
  rewrite Nat.add_0_r in H0. rewrite H0. apply IH.
  intros j Hj. replace (S i + j)%nat with (i + S j)%nat by lia.
  apply H. simpl. lia.
Qed.

(** The loop over scores that all lie above a comparable running maximum's
    floor: either no score beats the maximum, or the result is the first
    candidate of greatest score. *)
Lemma selectFrom_greatest (candidates : list string) :
  ∀ (i : nat) (maxScore : float) (bestLink : string),
    comparable maxScore →
    (∀ j, (j < length candidates)%nat → comparable (sc (i + j))) →
    let r := loop i candidates maxScore bestLink in
    (r = (maxScore, bestLink)
     ∧ ∀ j, (j < length candidates)%nat → (sc (i + j) <=? maxScore) = true)
    ∨ (∃ k, candidates !! k = Some r.2
          ∧ r.1 = sc (i + k)
          ∧ (maxScore <? r.1) = true
          ∧ (∀ j, (j < length candidates)%nat → (sc (i + j) <=? r.1) = true)
          ∧ (∀ j, (j < k)%nat → (sc (i + j) <? r.1) = true)).
Proof.
  induction candidates as [|c rest IH]; intros i m b Hm Hsc; simpl.
  - left. split; [done|]. intros j Hj. simpl in Hj. lia.
  - assert (Hi : comparable (sc i)).
    { specialize (Hsc 0%nat ltac:(simpl; lia)). now rewrite Nat.add_0_r in Hsc. }
    assert (Hrest : ∀ j, (j < length rest)%nat → comparable (sc (S i + j))).
    { intros j Hj. replace (S i + j)%nat with (i + S j)%nat by lia.
      apply Hsc. simpl. lia. }
    destruct (gt (sc i) m) eqn:Hgt.
    + right. destruct (IH (S i) (sc i) c Hi Hrest) as [[E Hle]|(k & Hk & E & Hlt & Hle & Hfirst)].
      * exists 0%nat. rewrite E. simpl. rewrite Nat.add_0_r.
        split; [done|]. split; [done|]. split; [exact Hgt|].
        split; [|intros j Hj; lia].
        intros [|j] Hj; [rewrite Nat.add_0_r; now apply leb_refl|].
        replace (i + S j)%nat with (S i + j)%nat by lia. apply Hle. simpl in Hj. lia.
      * exists (S k). simpl.
        replace (i + S k)%nat with (S i + k)%nat by lia.
        split; [done|]. split; [done|].
        split; [eapply ltb_trans; [exact Hgt|exact Hlt]|].
        split.
        -- intros [|j] Hj; [rewrite Nat.add_0_r; now apply ltb_leb|].
           replace (i + S j)%nat with (S i + j)%nat by lia. apply Hle.
           simpl in Hj. lia.
        -- intros [|j] Hj; [now rewrite Nat.add_0_r|].
           replace (i + S j)%nat with (S i + j)%nat by lia. apply Hfirst. lia.
    + assert (Hle0 : (sc i <=? m) = true) by now apply not_gt_leb.
      destruct (IH (S i) m b Hm Hrest) as [[E Hle]|(k & Hk & E & Hlt & Hle & Hfirst)].
      * left. split; [done|].
        intros [|j] Hj; [now rewrite Nat.add_0_r|].
        replace (i + S j)%nat with (S i + j)%nat by lia. apply Hle. simpl in Hj. lia.
      * right. exists (S k). simpl.
        replace (i + S k)%nat with (S i + k)%nat by lia.
        split; [done|]. split; [done|]. split; [done|].
        assert (Hlt0 : (sc i <? (loop (S i) rest m b).1) = true)
          by (eapply leb_ltb_trans; [exact Hle0|exact Hlt]).
        split.
        -- intros [|j] Hj; [rewrite Nat.add_0_r; now apply ltb_leb|].
           replace (i + S j)%nat with (S i + j)%nat by lia. apply Hle.
           simpl in Hj. lia.
        -- intros [|j] Hj; [now rewrite Nat.add_0_r|].
           replace (i + S j)%nat with (S i + j)%nat by lia. apply Hfirst. lia.
Qed.

End Selection.

Section LocalSolver.
Import vectorService Samples.
Local Open Scope float_scope.

(** C10: on a list of candidates that is not empty, the link the selection
    returns is one of the candidates, whatever the embeddings hold (NaN
    included): the loop starts from the first candidate and only ever
    replaces it by a candidate. *)
Theorem selectBest_member (targetVec : list float) (embeddings : Tensor)
    (c0 : string) (rest : list string) :
  (selectBest targetVec embeddings c0 (c0 :: rest)).2 ∈ c0 :: rest.
Proof.
  unfold selectBest.
  destruct (selectFrom_member targetVec (data embeddings)
              (default 0%nat (dims embeddings !! 1%nat)) (c0 :: rest) 0 (-2) c0)
    as [->|H]; [|exact H].
  apply elem_of_cons. now left.
Qed.

(** When every score is incomparable the first candidate is returned, with
    the floor -2 as its score. *)
Lemma selectBest_incomparable (targetVec : list float) (embeddings : Tensor)
    (c0 : string) (rest : list string) :
  (∀ j, gt (score targetVec (data embeddings)
              (default 0%nat (dims embeddings !! 1%nat)) j) (-2) = false) →
  selectBest targetVec embeddings c0 (c0 :: rest) = (-2, c0).
Proof.
  intros H. unfold selectBest. apply selectFrom_incomparable.
  intros j _. apply H.
Qed.

(** C6: when every score lies above the floor -2 of the loop, as a cosine
    similarity does, the selection returns a candidate [k] whose score no
    other score exceeds, and every candidate before [k] scores strictly
    less: the greatest score, the first occurrence among ties. *)
Theorem selectBest_greatest_first (targetVec : list float) (embeddings : Tensor)
    (c0 : string) (rest : list string) :
  let candidates := c0 :: rest in
  let sc := score targetVec (data embeddings)
              (default 0%nat (dims embeddings !! 1%nat)) in
  let r := selectBest targetVec embeddings c0 candidates in
  (∀ i, (i < length candidates)%nat → (-2 <? sc i) = true) →
  ∃ k, candidates !! k = Some r.2
     ∧ r.1 = sc k
     ∧ (∀ j, (j < length candidates)%nat → (sc j <=? sc k) = true)
     ∧ (∀ j, (j < k)%nat → (sc j <? sc k) = true).
Proof.
  intros candidates sc r Hsc.
  destruct (selectFrom_greatest targetVec (data embeddings)
              (default 0%nat (dims embeddings !! 1%nat)) candidates 0 (-2) c0)
    as [[E Hle]|(k & Hk & E & _ & Hle & Hfirst)].
  - reflexivity.
  - intros j Hj. eapply ltb_comparable, Hsc, Hj.
  - exfalso. specialize (Hle 0%nat ltac:(simpl; lia)).
    specialize (Hsc 0%nat ltac:(simpl; lia)). simpl in Hle.
    pose proof (leb_ltb_trans _ _ _ Hle Hsc) as Habs.
    rewrite ltb_irrefl in Habs. discriminate.
  - exists k. fold r in Hk, E, Hle, Hfirst. simpl in E, Hle, Hfirst.
    rewrite E in Hle, Hfirst. auto.
Qed.

Lemma selectBest_greatest_first_witness :
  ∃ k, ["A"; "B"; "C"] !! k
         = Some (selectBest [1; 0] embeddings3 "A" ["A"; "B"; "C"]).2
     ∧ (selectBest [1; 0] embeddings3 "A" ["A"; "B"; "C"]).1
         = score [1; 0] (data embeddings3) 2 k
     ∧ (∀ j, (j < 3)%nat →
          (score [1; 0] (data embeddings3) 2 j
           <=? score [1; 0] (data embeddings3) 2 k) = true)
     ∧ (∀ j, (j < k)%nat →
          (score [1; 0] (data embeddings3) 2 j
           <? score [1; 0] (data embeddings3) 2 k) = true).
Proof.
  apply (selectBest_greatest_first [1; 0] embeddings3 "A" ["B"; "C"]).
  intros [|[|[|i]]] Hi; [reflexivity..|simpl in Hi; lia].
Defined.

(** On the sample the winner is the second candidate: it ties with the third
    and comes first. *)
Example selectBest_sample :
  selectBest [1; 0] embeddings3 "A" ["A"; "B"; "C"] = (1, "B").
Proof. reflexivity. Qed.

End LocalSolver.

(** ** The local solver as a whole *)

Section GetNextMove.
Import vectorService Samples.

Variable toFixed : float → nat → string.

Lemma toLowerCase_empty (s : string) : toLowerCase s = "" → s = "".
Proof. destruct s; [done|discriminate]. Qed.

(** [Array.prototype.find] returns the first element that passes. *)
Lemma find_first {A} (P : A → bool) (xs : list A) (x : A) :
  x ∈ xs → P x = true →
  ∃ i y, xs !! i = Some y ∧ P y = true
       ∧ (∀ j z, (j < i)%nat → xs !! j = Some z → P z = false)
       ∧ List.find P xs = Some y.
Proof.
  induction xs as [|a xs IH]; intros Hx HP; [now apply elem_of_nil in Hx|].
  simpl. destruct (P a) eqn:Ha.
  - exists 0%nat, a. repeat split; try done. intros j z Hj. lia.
  - apply elem_of_cons in Hx as [->|Hx]; [congruence|].
    destruct (IH Hx HP) as (i & y & Hi & Hy & Hbefore & Hfind).
    exists (S i), y. repeat split; try done.
    intros [|j] z Hj Hz; simpl in Hz; [congruence|].
    eapply Hbefore; [|exact Hz]. lia.
Qed.

(** C5, as the code has it: when an outgoing link of the current page equals
    a non-empty target once both are lower-cased, the first such link is
    returned at once, with a rationale that quotes it, and nothing is
    awaited: the model is neither loaded nor called. *)
Theorem getNextMove_direct_match (loaded : Completion (option Extractor))
    (currentPage : WikiPage) (targetPage : string) (history : list string) :
  targetPage ≠ "" →
  (∃ l, l ∈ links currentPage ∧ toLowerCase l = toLowerCase targetPage) →
  ∃ i l,
    links currentPage !! i = Some l
    ∧ toLowerCase l = toLowerCase targetPage
    ∧ (∀ j l', (j < i)%nat → links currentPage !! j = Some l' →
         toLowerCase l' ≠ toLowerCase targetPage)
    ∧ getNextMove toFixed loaded currentPage targetPage history =
        ([], Return
               {| reasoning :=
                    VString ("Target identified! " +:+ dquote +:+ l +:+ dquote
                             +:+ " is a direct match for the goal.");
                  selectedLink := VString l |}).
Proof.
  intros Htarget (l0 & Hl0 & Heq0).
  destruct (find_first (λ l, String.eqb (toLowerCase l) (toLowerCase targetPage))
              (links currentPage) l0 Hl0) as (i & l & Hi & Hl & Hbefore & Hfind).
  { now apply String.eqb_eq. }
  apply String.eqb_eq in Hl.
  exists i, l. split; [done|]. split; [done|]. split.
  - intros j l' Hj Hj'. apply String.eqb_neq. eapply Hbefore; eauto.
  - unfold getNextMove. rewrite Hfind. simpl.
    assert (Hne : truthy_string l = true).
    { unfold truthy_string. apply negb_true_iff, String.eqb_neq.
      intros ->. apply Htarget, toLowerCase_empty. now rewrite <- Hl. }
    now rewrite Hne.
Qed.

(** No link of the page passes the direct check. *)
Lemma no_direct_link (currentPage : WikiPage) (targetPage : string) :
  (∀ l, l ∈ links currentPage → toLowerCase l ≠ toLowerCase targetPage) →
  List.find (λ l, String.eqb (toLowerCase l) (toLowerCase targetPage))
    (links currentPage) = None.
Proof.
  intros H. induction (links currentPage) as [|a xs IH]; [done|]. simpl.
  destruct (String.eqb_spec (toLowerCase a) (toLowerCase targetPage)) as [E|_].
  - exfalso. eapply H; [|exact E]. apply elem_of_cons. now left.
  - apply IH. intros l Hl. apply H, elem_of_cons. now right.
Qed.

(** C2, as the code has it: when no link matches the target and the filter
    leaves no candidate, the solver raises nothing.  It returns the first
    outgoing link of the page, or the title [Main_Page] when the page has
    none (or an empty first one), with the rationale
    [No valid links found.]; only the model load has been awaited. *)
Theorem getNextMove_no_candidates (model : Extractor) (currentPage : WikiPage)
    (targetPage : string) (history : list string) (isBacktracking : bool) :
  (∀ l, l ∈ links currentPage → toLowerCase l ≠ toLowerCase targetPage) →
  candidateFilter currentPage history = ([], isBacktracking) →
  getNextMove toFixed (Return (Some model)) currentPage targetPage history =
    ([CallLoadModel],
     Return
       {| reasoning := VString "No valid links found.";
          selectedLink :=
            VString
              match links currentPage with
              | l :: _ => if String.eqb l "" then "Main_Page" else l
              | [] => "Main_Page"
              end |}).
Proof.
  intros Hnone Hfilter. unfold getNextMove.
  rewrite (no_direct_link _ _ Hnone), Hfilter. simpl.
  destruct (links currentPage) as [|l ?]; [done|].
  unfold or_else. simpl. unfold truthy_string.
  now destruct (String.eqb l "").
Qed.


End GetNextMove.

Section LocalSolverRuns.
Import vectorService Samples.

Lemma getNextMove_direct_match_witness :
  ∃ i l,
    links pageHub !! i = Some l
    ∧ toLowerCase l = toLowerCase "foo_bar"
    ∧ (∀ j l', (j < i)%nat → links pageHub !! j = Some l' →
         toLowerCase l' ≠ toLowerCase "foo_bar")
    ∧ getNextMove Number.toFixed (Throw (Error "offline")) pageHub "foo_bar" ["Other"] =
        ([], Return
               {| reasoning :=
                    VString ("Target identified! " +:+ dquote +:+ l +:+ dquote
                             +:+ " is a direct match for the goal.");
                  selectedLink := VString l |}).
Proof.
  apply (getNextMove_direct_match Number.toFixed).
  - discriminate.
  - exists "Foo_Bar". split; [|reflexivity].
    apply (bool_decide_unpack _). vm_compute. exact I.
Defined.

Lemma getNextMove_no_candidates_witness :
  getNextMove Number.toFixed (Return (Some model2)) pageIsland "Cheese" ["Start"] =
    ([CallLoadModel],
     Return
       {| reasoning := VString "No valid links found.";
          selectedLink := VString "Main_Page" |}).
Proof.
  apply (getNextMove_no_candidates Number.toFixed model2 pageIsland "Cheese"
           ["Start"] true).
  - intros l Hl. simpl in Hl. now apply elem_of_nil in Hl.
  - vm_compute. reflexivity.
Defined.

(** C2 as the specification states it fails: on a page without outgoing
    links the solver does not throw, it answers with the link [Main_Page],
    which the page does not have. *)
Lemma getNextMove_island_returns_main_page :
  links pageIsland = []
  ∧ (candidateFilter pageIsland ["Start"]).1 = []
  ∧ getNextMove Number.toFixed (Return (Some model2)) pageIsland "Cheese" ["Start"] =
      ([CallLoadModel],
       Return
         {| reasoning := VString "No valid links found.";
            selectedLink := VString "Main_Page" |}).
Proof. repeat split; vm_compute; reflexivity. Qed.

(** C5 as the specification states it fails: the link [Foo_Bar] has the
    canonical form of the target [Foo Bar], yet the solver loads the model,
    computes the embeddings and returns the other link, which scores
    higher. *)
Lemma getNextMove_canonical_match_not_taken :
  "Foo_Bar" ∈ links pageHub
  ∧ App.normalizeTitle "Foo_Bar" = App.normalizeTitle "Foo Bar"
  ∧ getNextMove Number.toFixed (Return (Some model2)) pageHub "Foo Bar" [] =
      ([CallLoadModel; CallModel (Text "Foo Bar");
        CallModel (Texts ["Other"; "Foo_Bar"])],
       Return
         {| reasoning :=
              VString ("BERT Similarity Score: 1.000. " +:+ dquote +:+ "Other"
                       +:+ dquote +:+ " is semantically closest to " +:+ dquote
                       +:+ "Foo Bar" +:+ dquote
                       +:+ ". (Visited pages excluded to prevent loops).");
            selectedLink := VString "Other" |}).
Proof.
  split; [set_solver|]. split; vm_compute; reflexivity.
Qed.

End LocalSolverRuns.

(** ** The remote solvers on a response that does not parse *)

Section RemoteSolvers.
Import remote.

Variable JSON_parse : string → Completion Value.

(** Reading the two fields of a parsed value throws only when the value is
    [null] (or [undefined], which [JSON.parse] never gives). *)
Lemma fromData_cases (currentPage : WikiPage) (data : Value) :
  (data = VUndefined ∨ data = VNull) ∧ (∃ e, fromData currentPage data = Throw e)
  ∨ (∃ r, fromData currentPage data = Return r).
Proof.
  destruct data; simpl; eauto.
Qed.

(** Gemini: whatever the text of the response is, once the key is set and
    the request has answered, the solver returns. *)
Lemma gemini_returns (response : geminiService.GenerateContentResponse)
    (currentPage : WikiPage) (targetPage : string) (history : list string)
    (key : string) (envKey : option string) :
  truthy_string key = true →
  ∃ r, geminiService.getNextMove JSON_parse (Return response) currentPage
         targetPage history (Some key) envKey = Return r.
Proof.
  intros Hkey. unfold geminiService.getNextMove, resolveKey. simpl.
  rewrite Hkey. simpl. rewrite Hkey. simpl.
  destruct (JSON_parse _) as [data|e]; simpl; [|eauto].
  destruct (fromData_cases currentPage data) as [[_ [e ->]]|[r ->]]; simpl; eauto.
Qed.

(** Gemini: a text that [JSON.parse] rejects gives the first link and the
    rationale of the [catch] block. *)
Lemma gemini_unparsable (response : geminiService.GenerateContentResponse)
    (currentPage : WikiPage) (targetPage : string) (history : list string)
    (key : string) (envKey : option string) (e : Exn) :
  truthy_string key = true →
  JSON_parse (default "{}" (mguard_truthy (geminiService.text response))) = Throw e →
  geminiService.getNextMove JSON_parse (Return response) currentPage
    targetPage history (Some key) envKey =
  Return {| reasoning := VString "Failed to parse AI response. Picking first link.";
            selectedLink := first (links currentPage) |}.
Proof.
  intros Hkey Hparse. unfold geminiService.getNextMove, resolveKey. simpl.
  rewrite Hkey. simpl. rewrite Hkey. simpl. now rewrite Hparse.
Qed.

(** OpenAI: the same, and a completion without choices is caught too. *)
Lemma openai_returns (completion : openaiService.ChatCompletion)
    (currentPage : WikiPage) (targetPage : string) (history : list string)
    (key : string) (envKey : option string) :
  truthy_string key = true →
  ∃ r, openaiService.getNextMove JSON_parse (Return completion) currentPage
         targetPage history (Some key) envKey = Return r.
Proof.
  intros Hkey. unfold openaiService.getNextMove, resolveKey. simpl.
  rewrite Hkey. simpl. rewrite Hkey. simpl.
  destruct (openaiService.firstContent completion) as [content|e]; simpl; [|eauto].
  destruct (JSON_parse _) as [data|e]; simpl; [|eauto].
  destruct (fromData_cases currentPage data) as [[_ [e ->]]|[r ->]]; simpl; eauto.
Qed.

Lemma openai_unparsable (content : option string) (others : list (option string))
    (currentPage : WikiPage) (targetPage : string) (history : list string)
    (key : string) (envKey : option string) (e : Exn) :
  truthy_string key = true →
  JSON_parse (default "{}" (mguard_truthy content)) = Throw e →
  openaiService.getNextMove JSON_parse
    (Return (openaiService.mkCompletion (content :: others))) currentPage
    targetPage history (Some key) envKey =
  Return {| reasoning := VString "Failed to parse AI response. Picking first link.";
            selectedLink := first (links currentPage) |}.
Proof.
  intros Hkey Hparse. unfold openaiService.getNextMove, resolveKey. simpl.
  rewrite Hkey. simpl. rewrite Hkey. simpl. now rewrite Hparse.
Qed.

(** Claude: when the message has a first content block, a text that does not
    parse (or a block without text) gives the first link and the rationale
    of the [catch] block. *)
Lemma claude_returns (block : option string) (others : list (option string))
    (currentPage : WikiPage) (targetPage : string) (history : list string)
    (key : string) (envKey : option string) :
  truthy_string key = true →
  ∃ r, claudeService.getNextMove JSON_parse
         (Return (claudeService.mkMessage (block :: others))) currentPage
         targetPage history (Some key) envKey = Return r.
Proof.
  intros Hkey. unfold claudeService.getNextMove, resolveKey. simpl.
  rewrite Hkey. simpl. rewrite Hkey. simpl.
  destruct (claudeService.cleanContent block) as [content|e]; simpl; [|eauto].
  destruct (JSON_parse _) as [data|e]; simpl; [|eauto].
  destruct (fromData_cases currentPage data) as [[_ [e ->]]|[r ->]]; simpl; eauto.
Qed.

Lemma claude_unparsable (raw : string) (others : list (option string))
    (currentPage : WikiPage) (targetPage : string) (history : list string)
    (key : string) (envKey : option string) (content : string) (e : Exn) :
  truthy_string key = true →
  claudeService.cleanContent (Some raw) = Return content →
  JSON_parse (if truthy_string content then content else "{}") = Throw e →
  claudeService.getNextMove JSON_parse
    (Return (claudeService.mkMessage (Some raw :: others))) currentPage
    targetPage history (Some key) envKey =
  Return {| reasoning := VString "Failed to parse AI response. Picking first link.";
            selectedLink := first (links currentPage) |}.
Proof.
  intros Hkey Hclean Hparse. unfold claudeService.getNextMove, resolveKey. simpl.
  rewrite Hkey. simpl. rewrite Hkey. simpl.
  simpl in Hclean. injection Hclean as ->. now rewrite Hparse.
Qed.

(** C8 fails for Claude on a message whose content array is empty: the
    [try] block throws on [message.content[0].text], and the [catch] block
    reads the same expression for its log before it can return, so the
    TypeError leaves [getNextMove] instead of the fallback answer. *)
Theorem claude_empty_content_throws (currentPage : WikiPage)
    (targetPage : string) (history : list string) (envKey : option string) :
  claudeService.getNextMove JSON_parse (Return (claudeService.mkMessage []))
    currentPage targetPage history (Some "sk-ant-key") envKey =
  Throw (TypeError "Cannot read properties of undefined (reading 'text')").
Proof. reflexivity. Qed.

End RemoteSolvers.

Section RemoteSolverRuns.

(** The fences and the text around the object are removed before Claude's
    answer is parsed. *)
Example cleanContent_fenced :
  claudeService.cleanContent
    (Some ("Here you go:" +:+ String (ascii_of_nat 10) "```json"
           +:+ String (ascii_of_nat 10) "{ }" +:+ String (ascii_of_nat 10) "```"))
  = Return "{ }".
Proof. reflexivity. Qed.

End RemoteSolverRuns.

(** ** The orchestrator *)

(** The state after an event, as a record: the setters and the projections
    are computed, innermost first. *)
Ltac state_simpl :=
  cbv [App.syncStatusRef App.suspend App.resuspend App.finish App.setStatus
       App.setHistory App.setCurrentWikiPage App.setError
       App.setHighlightedLink App.setStartPage App.setTargetPage App.setSolver
       App.solverError App.resume
       App.startPage App.targetPage App.currentWikiPage App.history App.status
       App.error App.highlightedLink App.solver App.statusRef App.inflight].

Section Orchestrator.
Import App Samples vectorService.

Lemma run_cons (s : State) (e : Event) (es : list Event) :
  run s (e :: es) = run (step s e) es.
Proof. reflexivity. Qed.

Lemma run_app (s : State) (es es' : list Event) :
  run s (es ++ es') = run (run s es) es'.
Proof. apply fold_left_app. Qed.

(** The calls in flight when the last one moves on or returns. *)
Lemma lookup_last {A} (l : list A) (x : A) : (l ++ [x]) !! length l = Some x.
Proof. now apply list_lookup_middle. Qed.

Lemma insert_last {A} (l : list A) (x y : A) :
  <[length l := y]> (l ++ [x]) = l ++ [y].
Proof. rewrite insert_app_r_alt, Nat.sub_diag by done. reflexivity. Qed.

Lemma delete_last {A} (l : list A) (x : A) : delete (length l) (l ++ [x]) = l.
Proof.
  induction l as [|a l IH]; [done|]. simpl. now rewrite IH.
Qed.

(** The tick that starts a step. *)
Lemma tick_starts_step (s : State) (page : WikiPage) (t0 : float) :
  currentWikiPage s = Some page → status s = PLAYING →
  normalizeTitle (title page) ≠ normalizeTitle (targetPage s) →
  (length (history s) < maxSteps)%nat →
  step s (Tick t0) =
    syncStatusRef
      (suspend
         (SolverCall page (targetPage s) (pageTitle <$> history s) (solver s) t0)
         (setStatus LOADING_STEP s)).
Proof.
  intros Hpage Hst Hne Hlen. unfold step, handle, executeMove.
  rewrite Hpage, Hst. rewrite bool_decide_eq_true_2 by done.
  simpl negb. cbv iota.
  apply String.eqb_neq in Hne. apply Nat.leb_gt in Hlen. now rewrite Hne, Hlen.
Qed.

(** The tick on a spent budget, lines 235-239: the run fails with the
    budget message, and no solver call is started. *)
Lemma tick_on_spent_budget (s : State) (page : WikiPage) (t0 : float) :
  currentWikiPage s = Some page → status s = PLAYING →
  normalizeTitle (title page) ≠ normalizeTitle (targetPage s) →
  (maxSteps ≤ length (history s))%nat →
  step s (Tick t0) =
    syncStatusRef
      (setError (Some "Maximum attempts reached without finding the target.")
         (setStatus FAILED s))
  ∧ status (step s (Tick t0)) = FAILED
  ∧ inflight (step s (Tick t0)) = inflight s
  ∧ history (step s (Tick t0)) = history s.
Proof.
  intros Hpage Hst Hne Hlen.
  assert (E : step s (Tick t0) =
    syncStatusRef
      (setError (Some "Maximum attempts reached without finding the target.")
         (setStatus FAILED s))).
  { unfold step, handle, executeMove.
    rewrite Hpage, Hst. rewrite bool_decide_eq_true_2 by done.
    simpl negb. cbv iota.
    apply String.eqb_neq in Hne. apply Nat.leb_le in Hlen. now rewrite Hne, Hlen. }
  rewrite E. repeat split.
Qed.

Lemma settle_at (s : State) (k : nat) (c : Suspended) (a : Answer) :
  inflight s !! k = Some c →
  step s (Settle k a) = syncStatusRef (resume k c a s).
Proof. intros H. unfold step, handle. now rewrite H. Qed.

Local Ltac settle :=
  rewrite run_cons;
  erewrite settle_at by (state_simpl; rewrite ?insert_last; apply lookup_last);
  state_simpl; rewrite ?insert_last, ?delete_last.

(** C1, as the code has it.  The solver has returned an answer the
    component can show: a rationale that is a [validChild], and a link that
    is a string, whatever string.  The Step is appended at once; the link
    is not looked up in the outgoing links of the page, and neither the
    status nor the error changes.  When the pause ends, no other event
    having come in between, the call requests the page of that link: as the
    final fetch when the link normalises to the target, else as the paused
    fetch when the status is PAUSED, else as the next fetch; history,
    status and error are still what they were. *)
Theorem solver_return_commits_step (s : State) (k : nat) (page : WikiPage)
    (target : string) (path : list string) (sv : SolverType) (t0 t1 : float)
    (now : Z) (move : AIResponse) (link : string) :
  inflight s !! k = Some (SolverCall page target path sv t0) →
  validChild (reasoning move) = true →
  selectedLink move = VString link →
  let s1 := step s (Settle k (Move (Return move) t1 now)) in
  let s2 := step s1 (Settle k Elapsed) in
  history s1 =
    history s ++ [mkGameStep (title page) (reasoning move) now (t1 - t0)%float sv]
  ∧ status s1 = status s
  ∧ error s1 = error s
  ∧ inflight s1 !! k = Some (Pacing move (normalizeTitle target))
  ∧ history s2 = history s1
  ∧ status s2 = status s
  ∧ error s2 = error s
  ∧ inflight s2 !! k =
      Some (if String.eqb (normalizeTitle link) (normalizeTitle target)
            then FinalFetch (VString link)
            else if bool_decide (status s = PAUSED)
                 then PausedFetch (VString link)
                 else NextFetch (VString link)).
Proof.
  intros Hk _ Hlink s1 s2. subst s2 s1.
  assert (Hlt : (k < length (inflight s))%nat) by now apply lookup_lt_Some in Hk.
  rewrite (settle_at _ _ _ _ Hk).
  destruct s as [sp tp cp h st er hl sv0 sr inf]. simpl in Hk, Hlt. state_simpl.
  assert (Hp : <[k := Pacing move (normalizeTitle target)]> inf !! k
               = Some (Pacing move (normalizeTitle target)))
    by now apply list_lookup_insert_eq.
  split; [reflexivity|]. split; [reflexivity|]. split; [reflexivity|].
  split; [exact Hp|].
  erewrite settle_at by (state_simpl; exact Hp).
  state_simpl. rewrite Hlink. cbn [normalizeLink].
  destruct (String.eqb (normalizeTitle link) (normalizeTitle target));
    [|destruct (bool_decide (st = PAUSED))]; state_simpl;
    (split; [reflexivity|]); (split; [reflexivity|]); (split; [reflexivity|]);
    apply list_lookup_insert_eq; now rewrite length_insert.
Qed.

Lemma solver_return_commits_step_witness :
  let s := run initial (started ++ [Tick 0]) in
  let s1 := step s (Settle 0 (Move (Return (moveTo "Atlantis")) 250 1000)) in
  let s2 := step s1 (Settle 0 Elapsed) in
  history s1 =
    history s ++ [mkGameStep "Apollo 11" (VString "closest") 1000 (250 - 0)%float GEMINI]
  ∧ status s1 = status s
  ∧ error s1 = error s
  ∧ inflight s1 !! 0%nat = Some (Pacing (moveTo "Atlantis") (normalizeTitle "Cheese"))
  ∧ history s2 = history s1
  ∧ status s2 = status s
  ∧ error s2 = error s
  ∧ inflight s2 !! 0%nat = Some (NextFetch (VString "Atlantis")).
Proof.
  apply (solver_return_commits_step (run initial (started ++ [Tick 0])) 0
           pageApollo "Cheese" [] GEMINI 0 250 1000 (moveTo "Atlantis")
           "Atlantis").
  - reflexivity.
  - reflexivity.
  - reflexivity.
Defined.

(** C1 as the specification states it fails: the page [Island] has no
    outgoing link, the local solver answers [Main_Page], and the orchestrator
    appends the Step, fetches that page and plays on; the run does not
    fail. *)
Lemma step_committed_for_absent_link :
  let s := run initial islandRun in
  links pageIsland = []
  ∧ (getNextMove Number.toFixed (Return (Some model2)) pageIsland "Cheese" []).2
      = Return {| reasoning := VString "No valid links found.";
                  selectedLink := VString "Main_Page" |}
  ∧ history s =
      [mkGameStep "Island" (VString "No valid links found.") 1000 250 VECTORS]
  ∧ currentWikiPage s = Some pageMain
  ∧ status s = PLAYING.
Proof. repeat split; vm_compute; reflexivity. Qed.

(** C4, as the code has it.  A hop is what one tick starts and no other
    event interrupts: the timer fires on a page that is not the target,
    with budget left; the solver returns an answer the component can show
    (a [validChild] as rationale, a string as link); the pause ends; the
    page arrives.  After it the last Step names the page the hop was made
    from (the Step is built from the page the solver was asked about), and
    the current page is the page that was fetched for the chosen link. *)
Theorem hop_last_step_is_origin (s : State) (page : WikiPage) (link : string)
    (move : AIResponse) (next : WikiPage) (t0 t1 : float) (now : Z) :
  currentWikiPage s = Some page → status s = PLAYING →
  normalizeTitle (title page) ≠ normalizeTitle (targetPage s) →
  (length (history s) < maxSteps)%nat →
  validChild (reasoning move) = true →
  selectedLink move = VString link →
  let s' := run s (hop (length (inflight s)) t0 t1 now move next) in
  last (history s') =
    Some (mkGameStep (title page) (reasoning move) now (t1 - t0)%float (solver s))
  ∧ currentWikiPage s' = Some next.
Proof.
  intros Hpage Hst Hne Hlen _ Hlink s'. subst s'. unfold hop.
  rewrite run_cons, (tick_starts_step s page) by done.
  destruct s as [sp tp cp h st e hl sv sr inf].
  simpl in Hpage, Hst, Hne, Hlen. subst. state_simpl.
  settle. settle. rewrite Hlink. cbn [normalizeLink].
  destruct (String.eqb _ _); [|rewrite bool_decide_eq_false_2 by done];
    state_simpl; settle; cbn [run fold_left]; state_simpl;
    (split; [apply last_snoc|reflexivity]).
Qed.

Lemma hop_last_step_is_origin_witness :
  let s := run initial started in
  let s' := run s (hop 0 0 250 1000 (moveTo "Moon") pageMoon) in
  last (history s') =
    Some (mkGameStep "Apollo 11" (VString "closest") 1000 (250 - 0)%float GEMINI)
  ∧ currentWikiPage s' = Some pageMoon.
Proof.
  apply (hop_last_step_is_origin (run initial started) pageApollo "Moon"
           (moveTo "Moon") pageMoon 0 250 1000).
  - reflexivity.
  - reflexivity.
  - vm_compute. discriminate.
  - vm_compute. lia.
  - reflexivity.
  - reflexivity.
Defined.

(** Scenario A of the specification: a start page that is the target is a
    success at the first tick, with an empty history. *)
Example scenario_A :
  let s :=
    run initial
      [InputStartPage "Apollo_11"; InputTargetPage "Apollo_11"; ClickEngage;
       Settle 0 (Page (Return pageApollo)); Tick 0] in
  status s = SUCCESS ∧ history s = [] ∧ inflight s = [].
Proof. repeat split. Qed.

(** C4 as the specification states it fails: after the hop from
    [Apollo 11] to [Moon] is complete, the last Step names [Apollo 11] and
    the current page is [Moon]. *)
Lemma last_step_is_not_current_node :
  let s := run initial (started ++ hop 0 0 250 1000 (moveTo "Moon") pageMoon) in
  status s = PLAYING
  ∧ inflight s = []
  ∧ pageTitle <$> last (history s) = Some "Apollo 11"
  ∧ title <$> currentWikiPage s = Some "Moon".
Proof. repeat split. Qed.

(** The stop button while a step is loading. *)
Lemma click_stop_while_loading (s : State) :
  status s = LOADING_STEP →
  step s ClickStopResume = syncStatusRef (setStatus PAUSED s).
Proof.
  intros H. unfold step, handle. rewrite H.
  now rewrite !bool_decide_eq_false_2 by done.
Qed.

Local Ltac paused_result :=
  split; [reflexivity|]; split; [reflexivity|]; split; [reflexivity|];
  split; [reflexivity|];
  intros t; unfold step, handle; state_simpl;
  rewrite bool_decide_eq_false_2 by done; reflexivity.

(** A press of the stop button before the fetch is honoured, lines 307-314:
    when the button is pressed while the solver call or the pause after it
    is in flight, the answer is one the component can show and the chosen
    link is not the target, the step is carried out (the Step is appended,
    the fetched page becomes the current page), the status stays PAUSED and
    the timer of the next step is not set: a tick changes nothing. *)
Lemma pause_before_fetch_holds (early : bool) (s : State) (page : WikiPage)
    (link : string) (move : AIResponse) (next : WikiPage) (t0 t1 : float)
    (now : Z) :
  currentWikiPage s = Some page → status s = PLAYING →
  normalizeTitle (title page) ≠ normalizeTitle (targetPage s) →
  (length (history s) < maxSteps)%nat →
  validChild (reasoning move) = true →
  selectedLink move = VString link →
  normalizeTitle link ≠ normalizeTitle (targetPage s) →
  let s' := run s (pausedHop early (length (inflight s)) t0 t1 now move next) in
  history s' =
    history s
    ++ [mkGameStep (title page) (reasoning move) now (t1 - t0)%float (solver s)]
  ∧ currentWikiPage s' = Some next
  ∧ status s' = PAUSED
  ∧ inflight s' = inflight s
  ∧ ∀ t, step s' (Tick t) = s'.
Proof.
  intros Hpage Hst Hne Hlen _ Hlink Hne' s'. subst s'.
  apply String.eqb_neq in Hne'.
  unfold pausedHop. destruct early.
  - rewrite run_cons, (tick_starts_step s page) by done.
    destruct s as [sp tp cp h st e hl sv sr inf].
    simpl in Hpage, Hst, Hne, Hlen, Hne'. subst. state_simpl.
    rewrite run_cons, click_stop_while_loading by done. state_simpl.
    settle. settle. rewrite Hlink. cbn [normalizeLink]. rewrite Hne'.
    rewrite bool_decide_eq_true_2 by done. state_simpl.
    settle. cbn [run fold_left]. paused_result.
  - rewrite run_cons, (tick_starts_step s page) by done.
    destruct s as [sp tp cp h st e hl sv sr inf].
    simpl in Hpage, Hst, Hne, Hlen, Hne'. subst. state_simpl.
    settle.
    rewrite run_cons, click_stop_while_loading by done. state_simpl.
    settle. rewrite Hlink. cbn [normalizeLink]. rewrite Hne'.
    rewrite bool_decide_eq_true_2 by done. state_simpl.
    settle. cbn [run fold_left]. paused_result.
Qed.

Lemma pause_before_fetch_holds_witness :
  let s := run initial started in
  let s' := run s (pausedHop true 0 0 250 1000 (moveTo "Moon") pageMoon) in
  history s' =
    history s
    ++ [mkGameStep "Apollo 11" (VString "closest") 1000 (250 - 0)%float GEMINI]
  ∧ currentWikiPage s' = Some pageMoon
  ∧ status s' = PAUSED
  ∧ inflight s' = inflight s
  ∧ ∀ t, step s' (Tick t) = s'.
Proof.
  apply (pause_before_fetch_holds true (run initial started) pageApollo "Moon"
           (moveTo "Moon") pageMoon 0 250 1000).
  - reflexivity.
  - reflexivity.
  - vm_compute. discriminate.
  - vm_compute. lia.
  - reflexivity.
  - reflexivity.
  - vm_compute. discriminate.
Defined.

(** The target test of line 299 comes before the test of the pause: the
    stop button is pressed while the solver call is in flight and the
    status is PAUSED; the solver then returns the target, and the run ends
    in SUCCESS. *)
Example pause_overridden_by_success :
  let paused := run initial (started ++ [Tick 0; ClickStopResume]) in
  let s := run initial pausedOnLastHop in
  status paused = PAUSED
  ∧ inflight paused = [SolverCall pageApollo "Cheese" [] GEMINI 0]
  ∧ length (history s) = 1%nat
  ∧ currentWikiPage s = Some pageCheese
  ∧ status s = SUCCESS.
Proof. repeat split. Qed.

(** C9 fails for a press during the fetch.  The step from [Apollo 11] has
    appended its Step and is fetching [Moon] (line 316) when the stop
    button is pressed: the status and the [statusRef] are PAUSED.  The page
    arrives, line 320 sets the status to PLAYING without a look at the
    [statusRef], and the timer starts the next step, a solver call on
    [Moon], although nobody pressed resume.  The test of lines 307-314,
    which is there to [stay paused], has been passed before the press. *)
Theorem pause_during_fetch_is_lost :
  let paused :=
    run initial
      (started
       ++ [Tick 0; Settle 0 (Move (Return (moveTo "Moon")) 250 1000);
           Settle 0 Elapsed; ClickStopResume]) in
  let arrived := run initial pausedDuringFetch in
  let resumed := step arrived (Tick 2000) in
  status paused = PAUSED
  ∧ statusRef paused = PAUSED
  ∧ inflight paused = [NextFetch (VString "Moon")]
  ∧ arrived = step paused (Settle 0 (Page (Return pageMoon)))
  ∧ history arrived =
      [mkGameStep "Apollo 11" (VString "closest") 1000 (250 - 0)%float GEMINI]
  ∧ currentWikiPage arrived = Some pageMoon
  ∧ status arrived = PLAYING
  ∧ status resumed = LOADING_STEP
  ∧ inflight resumed = [SolverCall pageMoon "Cheese" ["Apollo 11"] GEMINI 2000].
Proof. repeat split. Qed.

(** *** The step budget *)

Lemma count_snoc {A} (f : A → bool) (l : list A) (c : A) :
  length (List.filter f (l ++ [c])) = (length (List.filter f l) + Nat.b2n (f c))%nat.
Proof.
  rewrite List.filter_app, length_app. simpl. destruct (f c); simpl; lia.
Qed.

Lemma count_insert {A} (f : A → bool) (l : list A) (k : nat) (c c' : A) :
  l !! k = Some c →
  (length (List.filter f (<[k := c']> l)) + Nat.b2n (f c))%nat
  = (length (List.filter f l) + Nat.b2n (f c'))%nat.
Proof.
  revert k. induction l as [|a l IH]; intros [|k] H; simpl in *; try discriminate.
  - injection H as ->. destruct (f c), (f c'); simpl; lia.
  - specialize (IH k H). destruct (f a); simpl; lia.
Qed.

Lemma count_delete {A} (f : A → bool) (l : list A) (k : nat) (c : A) :
  l !! k = Some c →
  (length (List.filter f (delete k l)) + Nat.b2n (f c))%nat
  = length (List.filter f l).
Proof.
  revert k. induction l as [|a l IH]; intros [|k] H; simpl in *; try discriminate.
  - injection H as ->. destruct (f c); simpl; lia.
  - specialize (IH k H). destruct (f a); simpl; lia.
Qed.

Lemma count_none {A} (f : A → bool) (l : list A) :
  existsb f l = false → length (List.filter f l) = 0%nat.
Proof.
  induction l as [|a l IH]; simpl; [done|].
  destruct (f a); simpl; [discriminate|exact IH].
Qed.

(** The Steps recorded and the solver calls in flight stay within the
    budget together, as long as no tick comes while a solver call is in
    flight. *)
Lemma budget_kept_by_step (s : State) (e : Event) :
  match e with
  | Tick _ => existsb awaitsSolver (inflight s) = false
  | _ => True
  end →
  (length (history s) + solverCalls s ≤ maxSteps)%nat →
  (length (history (step s e)) + solverCalls (step s e) ≤ maxSteps)%nat.
Proof.
  unfold solverCalls. intros He Hinv.
  destruct s as [sp tp cp h st er hl sv sr inf]. simpl in He, Hinv.
  destruct e as [| | | |t0|k a| | | |];
    unfold step, handle, handleStartGame, resetGame, executeMove, initial;
    state_simpl.
  - destruct (bool_decide (st = IDLE)); state_simpl; [|exact Hinv].
    rewrite count_snoc. simpl. lia.
  - destruct (bool_decide (st = IDLE)); [exact Hinv|].
    destruct (bool_decide (st = PAUSED)); exact Hinv.
  - destruct (bool_decide (st = IDLE)); state_simpl; [exact Hinv|simpl; lia].
  - destruct (bool_decide (st = PLAYING)); exact Hinv.
  - destruct (bool_decide (st = PLAYING)); [|exact Hinv].
    destruct cp as [page|]; [|exact Hinv].
    destruct (negb _); [exact Hinv|].
    destruct (String.eqb _ _); [exact Hinv|].
    destruct (Nat.leb maxSteps (length h)) eqn:Hlen; state_simpl; [exact Hinv|].
    apply Nat.leb_gt in Hlen. rewrite count_snoc, (count_none _ _ He). simpl. lia.
  - destruct (inf !! k) as [c|] eqn:Hk; [|exact Hinv].
    pose proof (count_delete awaitsSolver inf k c Hk) as Hdel.
    destruct c as [req|page target path sv' t0|move targetNorm|req|req|req],
      a as [[page'|err]|[move'|err] t1 now|]; state_simpl; simpl in Hdel;
      try exact Hinv; try lia.
    + pose proof (count_insert awaitsSolver inf k _
                    (Pacing move' (normalizeTitle target)) Hk) as Hins.
      simpl in Hins. rewrite length_app. simpl. lia.
    + destruct (normalizeLink (selectedLink move)) as [linkNorm|err]; state_simpl;
        [|lia].
      destruct (String.eqb linkNorm targetNorm);
        [|destruct (bool_decide (sr = PAUSED))]; state_simpl;
        match goal with
        | |- context [<[k := ?c']> inf] =>
            pose proof (count_insert awaitsSolver inf k _ c' Hk) as Hins
        end; simpl in Hins; lia.
  - exact Hinv.
  - exact Hinv.
  - destruct (bool_decide (st = IDLE)); exact Hinv.
  - unfold maxSteps. simpl. lia.
Qed.

(** In the runs whose steps do not overlap, the history never exceeds the
    step budget. *)
Lemma sequential_run_within_budget (events : list Event) :
  ∀ s, sequential s events →
    (length (history s) + solverCalls s ≤ maxSteps)%nat →
    (length (history (run s events)) ≤ maxSteps)%nat.
Proof.
  induction events as [|e rest IH]; intros s Hseq Hinv; simpl.
  - lia.
  - destruct Hseq as [He Hrest]. apply IH; [exact Hrest|].
    now apply budget_kept_by_step.
Qed.

(** C7 fails on overlapping steps.  After 39 hops the 40th step starts; the
    stop button is pressed twice while its solver call is in flight, which
    sets the status back to PLAYING; the timer fires and starts another
    step, whose budget check still reads 39 Steps; both solver calls
    return and both Steps are appended: 41 Steps for a budget of 40. *)
Theorem overlapping_steps_exceed_budget :
  let before :=
    run initial
      (started ++ concat (replicate 19 lap)
       ++ hop 0 0 250 3000 (moveTo "Moon") pageMoon) in
  let s := run initial overlappingSteps in
  length (history before) = 39%nat
  ∧ status before = PLAYING
  ∧ inflight before = []
  ∧ maxSteps = 40%nat
  ∧ length (history s) = 41%nat.
Proof. repeat split; vm_compute; reflexivity. Qed.

End Orchestrator.

(** * Further properties of the code *)

(** ** The candidate filter *)

Section CandidateFilterFurther.
Import vectorService Samples.

Lemma uniq_from_sublist (seen : gset string) (l : list string) :
  uniq_from seen l `sublist_of` l.
Proof.
  revert seen. induction l as [|y t IH]; intros seen; simpl.
  - constructor.
  - destruct (decide (y ∈ seen)).
    + apply sublist_cons, IH.
    + apply sublist_skip, IH.
Qed.

(** The candidates are pairwise distinct, they are links of the page in the
    order the page lists them, and there are at most 200 of them. *)
Theorem candidateFilter_distinct_ordered_bounded (currentPage : WikiPage)
    (history : list string) :
  let candidates := (candidateFilter currentPage history).1 in
  NoDup candidates
  ∧ candidates `sublist_of` links currentPage
  ∧ (length candidates ≤ 200)%nat.
Proof.
  intros candidates. subst candidates.
  destruct (candidateFilter currentPage history) as [c b] eqn:E. simpl.
  destruct (candidateFilter_sound _ _ _ _ E) as (Hdup & _ & Hlen).
  split; [exact Hdup|]. split; [|exact Hlen].
  destruct (candidateFilter_cases currentPage history) as [[_ E']|[_ E']];
    rewrite E' in E; injection E as <- <-;
    (etrans; [apply sublist_take|]);
    (etrans; [apply sublist_filter|]); apply uniq_from_sublist.
Qed.

(** A title is visited when it equals, lower-cased, a title of the history
    or the title of the current page. *)
Lemma visited_iff (currentPage : WikiPage) (history : list string) (l : string) :
  toLowerCase l
    ∈ (list_to_set (toLowerCase <$> history) ∪ {[toLowerCase (title currentPage)]}
       : gset string)
  ↔ ∃ v, v ∈ history ++ [title currentPage] ∧ toLowerCase l = toLowerCase v.
Proof.
  rewrite elem_of_union, elem_of_list_to_set, list_elem_of_fmap, elem_of_singleton.
  split.
  - intros [(v & E & Hv)|E].
    + exists v. split; [|exact E]. apply elem_of_app. now left.
    + exists (title currentPage). split; [|exact E].
      apply elem_of_app. right. now apply list_elem_of_singleton.
  - intros (v & Hv & E). apply elem_of_app in Hv as [Hv|Hv].
    + left. now exists v.
    + right. apply list_elem_of_singleton in Hv. now subst.
Qed.

(** The fallback is taken exactly when every outgoing link of the page is
    visited: its lower-cased form is that of a title of the history or of
    the current page. *)
Theorem candidateFilter_fallback_iff (currentPage : WikiPage)
    (history : list string) :
  (candidateFilter currentPage history).2 = true
  ↔ ∀ l, l ∈ links currentPage →
      ∃ v, v ∈ history ++ [title currentPage] ∧ toLowerCase l = toLowerCase v.
Proof.
  destruct (candidateFilter_cases currentPage history) as [[Hne E]|[Hnil E]];
    rewrite E; simpl; split.
  - discriminate.
  - intros Hall. exfalso. apply Hne.
    destruct (filter _ _) as [|a rest] eqn:Ef; [done|].
    assert (Ha : a ∈ a :: rest) by (apply elem_of_cons; now left).
    rewrite <- Ef in Ha. apply list_elem_of_filter in Ha as [Hfresh Ha].
    apply (proj1 (uniq_elem _ _)) in Ha. exfalso. apply Hfresh.
    apply visited_iff, Hall, Ha.
  - intros _ l Hl. apply visited_iff.
    destruct (decide (toLowerCase l ∈
      (list_to_set (toLowerCase <$> history) ∪ {[toLowerCase (title currentPage)]}
       : gset string))) as [Hin|Hout]; [exact Hin|].
    exfalso. assert (Hf : l ∈ filter
      (λ l, toLowerCase l ∉ (list_to_set (toLowerCase <$> history)
                             ∪ {[toLowerCase (title currentPage)]} : gset string))
      (uniq (links currentPage))).
    { apply list_elem_of_filter. split; [exact Hout|]. now apply uniq_elem. }
    rewrite Hnil in Hf. now apply elem_of_nil in Hf.
  - reflexivity.
Qed.

(** With or without the fallback, the filter never offers a link back to
    the current page itself (by lower-cased title). *)
Theorem candidateFilter_never_self (currentPage : WikiPage)
    (history : list string) (l : string) :
  l ∈ (candidateFilter currentPage history).1 →
  toLowerCase l ≠ toLowerCase (title currentPage).
Proof.
  destruct (candidateFilter_cases currentPage history) as [[_ E]|[_ E]];
    rewrite E; simpl; intros Hl; apply subseteq_take in Hl;
    apply list_elem_of_filter in Hl as [Hl _]; [|exact Hl].
  intros Heq. apply Hl. rewrite Heq. apply elem_of_union_r.
  now apply elem_of_singleton.
Qed.

Lemma candidateFilter_never_self_witness :
  toLowerCase "Moon" ≠ toLowerCase (title pageStart).
Proof.
  apply (candidateFilter_never_self pageStart ["Moon"; "Foo_Bar"] "Moon").
  apply (bool_decide_unpack _). vm_compute. exact I.
Defined.

End CandidateFilterFurther.

(** ** The similarity selection and the local solver *)

Section SelectionFurther.
Import vectorService Samples.
Local Open Scope float_scope.

(** The loop returns what it was started with, or a candidate together with
    that candidate's own score, which beats the score it was started with. *)
Lemma selectFrom_reported (targetVec data : list float) (hiddenSize : nat)
    (candidates : list string) :
  ∀ (i : nat) (maxScore : float) (bestLink : string),
    let r := selectFrom targetVec data hiddenSize i candidates maxScore bestLink in
    r = (maxScore, bestLink)
    ∨ ∃ k, candidates !! k = Some r.2
         ∧ r.1 = score targetVec data hiddenSize (i + k)
         ∧ (maxScore <? r.1) = true.
Proof.
  induction candidates as [|c rest IH]; intros i m b; simpl; [now left|].
  destruct (gt (score targetVec data hiddenSize i) m) eqn:Hgt.
  - right. destruct (IH (S i) (score targetVec data hiddenSize i) c)
      as [E|(k & Hk & E & Hlt)].
    + exists 0%nat. rewrite E. simpl. rewrite Nat.add_0_r. auto.
    + exists (S k). replace (i + S k)%nat with (S i + k)%nat by lia.
      simpl. split; [exact Hk|]. split; [exact E|].
      eapply ltb_trans; [exact Hgt|exact Hlt].
  - destruct (IH (S i) m b) as [E|(k & Hk & E & Hlt)]; [now left|right].
    exists (S k). replace (i + S k)%nat with (S i + k)%nat by lia. simpl. auto.
Qed.

(** The score the solver reports is never NaN and belongs to the link it
    returns: either no score beat the floor, and the answer is the first
    candidate with -2, or the answer is a candidate with that candidate's
    score, which is greater than -2. *)
Theorem selectBest_reports_own_score (targetVec : list float)
    (embeddings : Tensor) (c0 : string) (rest : list string) :
  let r := selectBest targetVec embeddings c0 (c0 :: rest) in
  comparable r.1
  ∧ (r = (-2, c0)
     ∨ ∃ k, (c0 :: rest) !! k = Some r.2
          ∧ r.1 = score targetVec (data embeddings)
                    (default 0%nat (dims embeddings !! 1%nat)) k
          ∧ (-2 <? r.1) = true).
Proof.
  intros r. subst r. unfold selectBest.
  destruct (selectFrom_reported targetVec (data embeddings)
              (default 0%nat (dims embeddings !! 1%nat)) (c0 :: rest) 0 (-2) c0)
    as [E|(k & Hk & E & Hlt)].
  - rewrite E. split; [reflexivity|now left].
  - split; [eapply ltb_comparable, Hlt|]. right. exists k. auto.
Qed.

End SelectionFurther.

Section GetNextMoveFurther.
Import vectorService Samples.

Variable toFixed : float → nat → string.


(** A model that cannot be used is an exception of the solver, not a
    fallback link: a failed load is passed on, a null model throws
    [Model not loaded], and a failed embedding of the target is passed on;
    nothing is awaited after the failure. *)
Theorem getNextMove_model_failure (currentPage : WikiPage)
    (targetPage : string) (history : list string) :
  (∀ l, l ∈ links currentPage → toLowerCase l ≠ toLowerCase targetPage) →
  (∀ e, getNextMove toFixed (Throw e) currentPage targetPage history =
          ([CallLoadModel], Throw e))
  ∧ getNextMove toFixed (Return None) currentPage targetPage history =
      ([CallLoadModel], Throw (Error "Model not loaded"))
  ∧ (∀ model e,
       (candidateFilter currentPage history).1 ≠ [] →
       model (Text targetPage) = Throw e →
       getNextMove toFixed (Return (Some model)) currentPage targetPage history =
         ([CallLoadModel; CallModel (Text targetPage)], Throw e)).
Proof.
  intros Hnone. unfold getNextMove. rewrite (no_direct_link _ _ Hnone). simpl.
  split; [done|]. split; [done|].
  intros model e Hne Htarget.
  destruct (candidateFilter currentPage history) as [[|c0 rest] b]; [done|].
  simpl. now rewrite Htarget.
Qed.

End GetNextMoveFurther.

Section LocalSolverFurtherRuns.
Import vectorService Samples.


Lemma getNextMove_model_failure_witness :
  (∀ e, getNextMove Number.toFixed (Throw e) pageHub "Foo Bar" [] =
          ([CallLoadModel], Throw e))
  ∧ getNextMove Number.toFixed (Return None) pageHub "Foo Bar" [] =
      ([CallLoadModel], Throw (Error "Model not loaded"))
  ∧ (∀ model e,
       (candidateFilter pageHub []).1 ≠ [] →
       model (Text "Foo Bar") = Throw e →
       getNextMove Number.toFixed (Return (Some model)) pageHub "Foo Bar" [] =
         ([CallLoadModel; CallModel (Text "Foo Bar")], Throw e)).
Proof.
  apply (getNextMove_model_failure Number.toFixed pageHub "Foo Bar" []).
  intros l Hl.
  repeat (apply elem_of_cons in Hl as [->|Hl]; [vm_compute; discriminate|]).
  now apply elem_of_nil in Hl.
Defined.

End LocalSolverFurtherRuns.

(** ** [normalizeTitle] *)

Section NormalizeTitle.
Import App.

Lemma lower_char_space (c : ascii) : is_space (lower_char c) = is_space c.
Proof. destruct c as [[] [] [] [] [] [] [] []]; reflexivity. Qed.

Lemma lower_char_idem (c : ascii) : lower_char (lower_char c) = lower_char c.
Proof. destruct c as [[] [] [] [] [] [] [] []]; reflexivity. Qed.

Lemma lower_char_underscore (c : ascii) :
  lower_char (if Ascii.eqb c " " then "_"%char else c)
  = (if Ascii.eqb (lower_char c) " " then "_"%char else lower_char c).
Proof. destruct c as [[] [] [] [] [] [] [] []]; reflexivity. Qed.

Lemma toLowerCase_idem (s : string) : toLowerCase (toLowerCase s) = toLowerCase s.
Proof. induction s as [|c t IH]; simpl; [done|]. now rewrite lower_char_idem, IH. Qed.

Lemma toLowerCase_replace_spaces (s : string) :
  toLowerCase (replace_spaces s) = replace_spaces (toLowerCase s).
Proof.
  induction s as [|c t IH]; simpl; [done|]. now rewrite lower_char_underscore, IH.
Qed.

Lemma toLowerCase_trimStart (s : string) :
  toLowerCase (trimStart s) = trimStart (toLowerCase s).
Proof.
  induction s as [|c t IH]; simpl; [done|]. rewrite lower_char_space.
  now destruct (is_space c).
Qed.

Lemma toLowerCase_trimEnd (s : string) :
  toLowerCase (trimEnd s) = trimEnd (toLowerCase s).
Proof.
  induction s as [|c t IH]; simpl; [done|]. rewrite <- IH, lower_char_space.
  destruct (trimEnd t); simpl; [now destruct (is_space c)|done].
Qed.

(** Lower-casing can be done first: the normal form of a title is a function
    of its lower-cased form. *)
Lemma normalizeTitle_lower_first (s : string) :
  normalizeTitle s = replace_spaces (trim (toLowerCase s)).
Proof.
  unfold normalizeTitle, trim.
  now rewrite toLowerCase_replace_spaces, toLowerCase_trimEnd, toLowerCase_trimStart.
Qed.

(** A string is trimmed when it neither starts nor ends with white space. *)
Lemma trimStart_trimEnd (s : string) :
  trimStart s = s → trimStart (trimEnd s) = trimEnd s.
Proof.
  destruct s as [|c t]; simpl; [done|].
  destruct (is_space c) eqn:Hc.
  - intros H. exfalso. assert (Hlen : String.length (trimStart t) = S (String.length t))
      by now rewrite H.
    clear H. assert (Hle : ∀ u, (String.length (trimStart u) ≤ String.length u)%nat).
    { induction u as [|d u IHu]; simpl; [lia|]. destruct (is_space d); simpl; lia. }
    specialize (Hle t). lia.
  - intros _. destruct (trimEnd t); simpl; now rewrite Hc.
Qed.

Lemma trimStart_idem (s : string) : trimStart (trimStart s) = trimStart s.
Proof.
  induction s as [|c t IH]; simpl; [done|].
  destruct (is_space c) eqn:Hc; [exact IH|]. simpl. now rewrite Hc.
Qed.

Lemma trimEnd_idem (s : string) : trimEnd (trimEnd s) = trimEnd s.
Proof.
  induction s as [|c t IH]; simpl; [done|].
  destruct (trimEnd t) as [|d u] eqn:Ht.
  - destruct (is_space c) eqn:Hc; simpl; [done|]. now rewrite Hc.
  - change (trimEnd (String c (String d u)))
      with (match trimEnd (String d u) with
            | EmptyString => if is_space c then EmptyString else String c EmptyString
            | String a v => String c (String a v)
            end).
    now rewrite IH.
Qed.

Lemma trim_idem (s : string) : trim (trim s) = trim s.
Proof.
  unfold trim. rewrite (trimStart_trimEnd (trimStart s)) by apply trimStart_idem.
  apply trimEnd_idem.
Qed.

(** Spaces turned into underscores leave a trimmed string trimmed. *)
Lemma trimStart_replace_spaces (s : string) :
  trimStart s = s → trimStart (replace_spaces s) = replace_spaces s.
Proof.
  destruct s as [|c t]; simpl; [done|].
  destruct (is_space c) eqn:Hc.
  - intros H. exfalso. assert (Hlen : String.length (trimStart t) = S (String.length t))
      by now rewrite H.
    clear H. assert (Hle : ∀ u, (String.length (trimStart u) ≤ String.length u)%nat).
    { induction u as [|d u IHu]; simpl; [lia|]. destruct (is_space d); simpl; lia. }
    specialize (Hle t). lia.
  - intros _. destruct (Ascii.eqb_spec c " ") as [->|_]; [discriminate|].
    now rewrite Hc.
Qed.

Lemma replace_spaces_empty (s : string) : replace_spaces s = "" → s = "".
Proof. destruct s; [done|discriminate]. Qed.

Lemma trimEnd_replace_spaces (s : string) :
  trimEnd s = s → trimEnd (replace_spaces s) = replace_spaces s.
Proof.
  induction s as [|c t IH]; simpl; [done|].
  destruct (trimEnd t) as [|d u] eqn:Ht.
  - destruct (is_space c) eqn:Hc; [discriminate|]. intros [= <-]. simpl.
    destruct (Ascii.eqb_spec c " ") as [->|_]; [discriminate|]. now rewrite Hc.
  - intros [= E]. rewrite IH by exact E. rewrite <- E. reflexivity.
Qed.

Lemma underscore_char_idem (c : ascii) :
  (if Ascii.eqb (if Ascii.eqb c " " then "_"%char else c) " "
   then "_"%char else (if Ascii.eqb c " " then "_"%char else c))
  = (if Ascii.eqb c " " then "_"%char else c).
Proof. destruct (Ascii.eqb_spec c " ") as [->|H]; [reflexivity|]. now apply Ascii.eqb_neq in H as ->. Qed.

Lemma replace_spaces_idem (s : string) :
  replace_spaces (replace_spaces s) = replace_spaces s.
Proof.
  induction s as [|c t IH]; simpl; [done|]. now rewrite underscore_char_idem, IH.
Qed.

(** [normalizeTitle] is idempotent: a normal form is its own normal form. *)
Theorem normalizeTitle_idempotent (s : string) :
  normalizeTitle (normalizeTitle s) = normalizeTitle s.
Proof.
  rewrite (normalizeTitle_lower_first (normalizeTitle s)).
  unfold normalizeTitle at 1. rewrite toLowerCase_idem.
  fold (normalizeTitle s). rewrite normalizeTitle_lower_first.
  set (t := trim (toLowerCase s)).
  assert (Hs : trimStart t = t).
  { unfold t, trim. apply trimStart_trimEnd, trimStart_idem. }
  assert (He : trimEnd t = t) by (unfold t, trim; apply trimEnd_idem).
  unfold trim. rewrite (trimStart_replace_spaces t Hs), (trimEnd_replace_spaces t He).
  apply replace_spaces_idem.
Qed.

(** Titles that differ only in the case of their letters or in the white
    space around them have the same normal form, and so do a trimmed title
    and its spelling with underscores for spaces. *)
Theorem normalizeTitle_identifies (s : string) :
  normalizeTitle (toLowerCase s) = normalizeTitle s
  ∧ normalizeTitle (trim s) = normalizeTitle s
  ∧ normalizeTitle (replace_spaces (trim s)) = normalizeTitle s.
Proof.
  split; [|split].
  - rewrite !normalizeTitle_lower_first. now rewrite toLowerCase_idem.
  - unfold normalizeTitle. now rewrite trim_idem.
  - unfold normalizeTitle.
    assert (Hs : trimStart (trim s) = trim s).
    { unfold trim. apply trimStart_trimEnd, trimStart_idem. }
    assert (He : trimEnd (trim s) = trim s) by (unfold trim; apply trimEnd_idem).
    unfold trim at 1.
    rewrite (trimStart_replace_spaces _ Hs), (trimEnd_replace_spaces _ He).
    now rewrite replace_spaces_idem.
Qed.

(** Two titles with the same lower-cased form have the same normal form:
    a link that passes the direct check of the local solver also passes the
    target test of the orchestrator. *)
Theorem lower_equal_normalize_equal (l t : string) :
  toLowerCase l = toLowerCase t → normalizeTitle l = normalizeTitle t.
Proof. intros H. rewrite !normalizeTitle_lower_first. now rewrite H. Qed.

Lemma lower_equal_normalize_equal_witness :
  normalizeTitle "CHEESE" = normalizeTitle "Cheese".
Proof. apply lower_equal_normalize_equal. reflexivity. Defined.

End NormalizeTitle.

(** ** The orchestrator: what an event can do to a run *)

Section OrchestratorFurther.
Import App Samples.

Local Ltac event_cases :=
  unfold step, handle, handleStartGame, resetGame, executeMove, initial;
  state_simpl.


(** A solver call is started by nothing but a tick, and only in status
    PLAYING, on a page that is not the target, with budget left. *)
Theorem solver_call_started_only_by_tick (s : State) (e : Event) :
  (solverCalls s < solverCalls (step s e))%nat →
  ∃ t page,
    e = Tick t
    ∧ status s = PLAYING
    ∧ currentWikiPage s = Some page
    ∧ normalizeTitle (title page) ≠ normalizeTitle (targetPage s)
    ∧ (length (history s) < maxSteps)%nat.
Proof.
  unfold solverCalls.
  destruct s as [sp tp cp h st er hl sv sr inf].
  destruct e as [| | | |t0|k a| | | |]; event_cases.
  - destruct (bool_decide (st = IDLE)); state_simpl; [|lia].
    rewrite count_snoc. simpl. lia.
  - destruct (bool_decide (st = IDLE)); [lia|].
    destruct (bool_decide (st = PAUSED)); state_simpl; lia.
  - destruct (bool_decide (st = IDLE)); state_simpl; lia.
  - destruct (bool_decide (st = PLAYING)); state_simpl; lia.
  - destruct (bool_decide (st = PLAYING)) eqn:Hst; [|lia].
    apply bool_decide_eq_true_1 in Hst.
    destruct cp as [page|]; [|lia].
    destruct (negb _); [lia|].
    destruct (String.eqb _ _) eqn:Hne; [state_simpl; lia|].
    destruct (Nat.leb maxSteps (length h)) eqn:Hlen; state_simpl; [lia|].
    intros _. exists t0, page. apply String.eqb_neq in Hne.
    apply Nat.leb_gt in Hlen. auto.
  - destruct (inf !! k) as [c|] eqn:Hk; [|lia].
    pose proof (count_delete awaitsSolver inf k c Hk) as Hdel.
    destruct c as [req|page target path sv' t0|move targetNorm|req|req|req],
      a as [[page'|err]|[move'|err] t1 now|]; state_simpl; simpl in Hdel;
      try lia.
    + pose proof (count_insert awaitsSolver inf k _
                    (Pacing move' (normalizeTitle target)) Hk) as Hins.
      simpl in Hins. lia.
    + destruct (normalizeLink (selectedLink move)) as [linkNorm|err]; state_simpl;
        [|lia].
      destruct (String.eqb linkNorm targetNorm);
        [|destruct (bool_decide (sr = PAUSED))]; state_simpl;
        match goal with
        | |- context [<[k := ?c']> inf] =>
            pose proof (count_insert awaitsSolver inf k _ c' Hk) as Hins
        end; simpl in Hins; lia.
  - lia.
  - lia.
  - destruct (bool_decide (st = IDLE)); state_simpl; lia.
  - simpl. lia.
Qed.

Lemma solver_call_started_only_by_tick_witness :
  ∃ t page,
    Tick 0 = Tick t
    ∧ status (run initial started) = PLAYING
    ∧ currentWikiPage (run initial started) = Some page
    ∧ normalizeTitle (title page) ≠ normalizeTitle (targetPage (run initial started))
    ∧ (length (history (run initial started)) < maxSteps)%nat.
Proof.
  apply (solver_call_started_only_by_tick (run initial started) (Tick 0)).
  vm_compute. lia.
Defined.

Lemma lookup_insert_same {A} (l : list A) (k : nat) (x y : A) :
  l !! k = Some y → <[k := x]> l !! k = Some x.
Proof. intros H. apply list_lookup_insert_eq. now apply lookup_lt_Some in H. Qed.

Lemma settle_at_record (sp tp : string) (cp : option WikiPage)
    (h : list GameStep) (st : GameStatus) (er : option string)
    (hl : option Value) (sv : SolverType) (sr : GameStatus)
    (inf : list Suspended) (k : nat) (c : Suspended) (a : Answer) :
  inf !! k = Some c →
  step (mkState sp tp cp h st er hl sv sr inf) (Settle k a)
  = syncStatusRef (resume k c a (mkState sp tp cp h st er hl sv sr inf)).
Proof. intros H. now apply settle_at. Qed.

Lemma click_abort (s : State) :
  status s ≠ IDLE → step s ClickAbort = syncStatusRef (resetGame s).
Proof.
  intros H. unfold step, handle. now rewrite bool_decide_eq_false_2 by done.
Qed.

Local Ltac settle_with H :=
  rewrite ?run_cons; rewrite (settle_at_record _ _ _ _ _ _ _ _ _ _ _ _ _ H);
  state_simpl.

(** An abort does not cancel the step in flight.  When the solver answers
    after the home button was pressed, with an answer the component can
    show (a [validChild] as rationale, a string as link) whose link is not
    the target, the Step is appended to the emptied history, the chosen
    page is fetched, and the run is PLAYING again although nobody started
    it. *)
Theorem abort_does_not_cancel_step (s : State) (k : nat) (page : WikiPage)
    (target : string) (path : list string) (sv : SolverType) (t0 t1 : float)
    (now : Z) (move : AIResponse) (link : string) (next : WikiPage) :
  inflight s !! k = Some (SolverCall page target path sv t0) →
  status s ≠ IDLE →
  validChild (reasoning move) = true →
  selectedLink move = VString link →
  normalizeTitle link ≠ normalizeTitle target →
  let aborted := step s ClickAbort in
  let s' :=
    run aborted
      [Settle k (Move (Return move) t1 now); Settle k Elapsed;
       Settle k (Page (Return next))] in
  status aborted = IDLE
  ∧ history aborted = []
  ∧ currentWikiPage aborted = None
  ∧ status s' = PLAYING
  ∧ currentWikiPage s' = Some next
  ∧ history s' = [mkGameStep (title page) (reasoning move) now (t1 - t0)%float sv].
Proof.
  intros Hk Hst _ Hlink Hne aborted s'. subst s' aborted.
  apply String.eqb_neq in Hne.
  rewrite (click_abort s Hst).
  destruct s as [sp tp cp h st er hl sv0 sr inf]. simpl in Hk, Hst.
  unfold resetGame. state_simpl.
  split; [reflexivity|]. split; [reflexivity|]. split; [reflexivity|].
  settle_with Hk.
  pose proof (lookup_insert_same inf k (Pacing move (normalizeTitle target)) _ Hk)
    as H1.
  settle_with H1. rewrite Hlink. cbn [normalizeLink]. rewrite Hne.
  rewrite bool_decide_eq_false_2 by done. state_simpl.
  pose proof (lookup_insert_same _ k (NextFetch (VString link)) _ H1) as H2.
  settle_with H2. cbn [run fold_left].
  split; [reflexivity|]. split; reflexivity.
Qed.

Lemma abort_does_not_cancel_step_witness :
  let s := run initial (started ++ [Tick 0]) in
  let aborted := step s ClickAbort in
  let s' :=
    run aborted
      [Settle 0 (Move (Return (moveTo "Moon")) 250 1000); Settle 0 Elapsed;
       Settle 0 (Page (Return pageMoon))] in
  status aborted = IDLE
  ∧ history aborted = []
  ∧ currentWikiPage aborted = None
  ∧ status s' = PLAYING
  ∧ currentWikiPage s' = Some pageMoon
  ∧ history s' =
      [mkGameStep "Apollo 11" (VString "closest") 1000 (250 - 0)%float GEMINI].
Proof.
  apply (abort_does_not_cancel_step (run initial (started ++ [Tick 0])) 0
           pageApollo "Cheese" [] GEMINI 0 250 1000 (moveTo "Moon") "Moon" pageMoon).
  - reflexivity.
  - vm_compute. discriminate.
  - reflexivity.
  - reflexivity.
  - vm_compute. discriminate.
Defined.

(** A press of the stop button while the next page is being fetched is
    lost: the status is PAUSED until the page arrives, and PLAYING from
    then on, so the next step starts by itself. *)
Theorem pause_during_fetch_overridden (s : State) (k : nat) (requested : Value)
    (next : WikiPage) :
  inflight s !! k = Some (NextFetch requested) →
  status s = LOADING_STEP →
  let paused := step s ClickStopResume in
  let s' := step paused (Settle k (Page (Return next))) in
  status paused = PAUSED
  ∧ status s' = PLAYING
  ∧ currentWikiPage s' = Some next
  ∧ history s' = history s.
Proof.
  intros Hk Hst paused s'. subst s' paused.
  rewrite click_stop_while_loading by exact Hst.
  destruct s as [sp tp cp h st er hl sv0 sr inf]. simpl in Hk, Hst. subst st.
  state_simpl. settle_with Hk.
  split; [reflexivity|]. split; [reflexivity|]. split; reflexivity.
Qed.

Lemma pause_during_fetch_overridden_witness :
  let s :=
    run initial
      (started
       ++ [Tick 0; Settle 0 (Move (Return (moveTo "Moon")) 250 1000);
           Settle 0 Elapsed]) in
  let paused := step s ClickStopResume in
  let s' := step paused (Settle 0 (Page (Return pageMoon))) in
  status paused = PAUSED
  ∧ status s' = PLAYING
  ∧ currentWikiPage s' = Some pageMoon
  ∧ history s' = history s.
Proof.
  apply (pause_during_fetch_overridden
           (run initial
              (started
               ++ [Tick 0; Settle 0 (Move (Return (moveTo "Moon")) 250 1000);
                   Settle 0 Elapsed])) 0 (VString "Moon") pageMoon).
  - reflexivity.
  - reflexivity.
Defined.

(** The answer of a remote solver's [catch] block on a page without
    outgoing links has no link at all ([undefined]).  The orchestrator
    appends the Step all the same, and the run fails after the pause, on
    the TypeError of [normalizeTitle]; no page is fetched. *)
Theorem fallback_without_links_fails_run (s : State) (k : nat) (page : WikiPage)
    (target : string) (path : list string) (sv : SolverType) (t0 t1 : float)
    (now : Z) :
  inflight s !! k = Some (SolverCall page target path sv t0) →
  links page = [] →
  let s' :=
    run s [Settle k (Move (Return (remote.fallback page)) t1 now);
           Settle k Elapsed] in
  status s' = FAILED
  ∧ error s' =
      Some "Solver Error: Cannot read properties of undefined (reading 'trim')"
  ∧ history s' =
      history s
      ++ [mkGameStep (title page)
            (VString "Failed to parse AI response. Picking first link.")
            now (t1 - t0)%float sv]
  ∧ inflight s' = delete k (inflight s)
  ∧ currentWikiPage s' = currentWikiPage s.
Proof.
  intros Hk Hlinks s'. subst s'.
  destruct s as [sp tp cp h st er hl sv0 sr inf]. simpl in Hk.
  settle_with Hk.
  pose proof (lookup_insert_same inf k
                (Pacing (remote.fallback page) (normalizeTitle target)) _ Hk) as H1.
  settle_with H1. unfold remote.fallback. rewrite Hlinks. cbn [normalizeLink selectedLink first].
  state_simpl. cbn [run fold_left message reasoning].
  split; [reflexivity|]. split; [reflexivity|]. split; [reflexivity|].
  split; [|reflexivity]. cbn [inflight].
  clear. revert k. induction inf as [|c inf IH]; intros [|k]; simpl; try done.
  now rewrite IH.
Qed.

Lemma fallback_without_links_fails_run_witness :
  let s :=
    run initial
      [InputStartPage "Island"; ClickEngage;
       Settle 0 (Page (Return pageIsland)); Tick 0] in
  let s' :=
    run s [Settle 0 (Move (Return (remote.fallback pageIsland)) 250 1000);
           Settle 0 Elapsed] in
  status s' = FAILED
  ∧ error s' =
      Some "Solver Error: Cannot read properties of undefined (reading 'trim')"
  ∧ history s' =
      history s
      ++ [mkGameStep "Island"
            (VString "Failed to parse AI response. Picking first link.")
            1000 (250 - 0)%float GEMINI]
  ∧ inflight s' = delete 0 (inflight s)
  ∧ currentWikiPage s' = currentWikiPage s.
Proof.
  apply (fallback_without_links_fails_run
           (run initial
              [InputStartPage "Island"; ClickEngage;
               Settle 0 (Page (Return pageIsland)); Tick 0])
           0 pageIsland "Cheese" [] GEMINI 0 250 1000).
  - reflexivity.
  - reflexivity.
Defined.

Lemma tick_on_spent_budget_witness :
  let s := run initial (started ++ concat (replicate 20 lap)) in
  step s (Tick 0) =
    syncStatusRef
      (setError (Some "Maximum attempts reached without finding the target.")
         (setStatus FAILED s))
  ∧ status (step s (Tick 0)) = FAILED
  ∧ inflight (step s (Tick 0)) = inflight s
  ∧ history (step s (Tick 0)) = history s.
Proof.
  apply (tick_on_spent_budget (run initial (started ++ concat (replicate 20 lap)))
           pageApollo 0).
  - vm_compute. reflexivity.
  - vm_compute. reflexivity.
  - vm_compute. discriminate.
  - vm_compute. lia.
Defined.

(** The target test comes before the budget test: on a page whose normal
    form is the target's, a tick is a SUCCESS whatever the length of the
    history, and starts no solver call. *)
Theorem target_test_precedes_budget (s : State) (page : WikiPage) (t0 : float) :
  currentWikiPage s = Some page → status s = PLAYING →
  normalizeTitle (title page) = normalizeTitle (targetPage s) →
  status (step s (Tick t0)) = SUCCESS
  ∧ error (step s (Tick t0)) = error s
  ∧ history (step s (Tick t0)) = history s
  ∧ inflight (step s (Tick t0)) = inflight s.
Proof.
  intros Hpage Hst Heq. unfold step, handle, executeMove.
  rewrite Hpage, Hst. rewrite bool_decide_eq_true_2 by done.
  simpl negb. cbv iota. apply String.eqb_eq in Heq. rewrite Heq.
  repeat split.
Qed.

Lemma target_test_precedes_budget_witness :
  let s :=
    run initial
      (started ++ concat (replicate 19 lap)
       ++ hop 0 0 250 3000 (moveTo "Moon") pageMoon
       ++ hop 0 0 250 4000 (moveTo "Cheeses") pageCheese) in
  status (step s (Tick 0)) = SUCCESS
  ∧ error (step s (Tick 0)) = error s
  ∧ history (step s (Tick 0)) = history s
  ∧ inflight (step s (Tick 0)) = inflight s.
Proof.
  apply (target_test_precedes_budget
           (run initial
              (started ++ concat (replicate 19 lap)
               ++ hop 0 0 250 3000 (moveTo "Moon") pageMoon
               ++ hop 0 0 250 4000 (moveTo "Cheeses") pageCheese))
           pageCheese 0).
  - vm_compute. reflexivity.
  - vm_compute. reflexivity.
  - vm_compute. reflexivity.
Defined.

(** The state the witness above runs from has spent its budget: 40 Steps. *)
Example target_test_precedes_budget_sample :
  length
    (history
       (run initial
          (started ++ concat (replicate 19 lap)
           ++ hop 0 0 250 3000 (moveTo "Moon") pageMoon
           ++ hop 0 0 250 4000 (moveTo "Cheeses") pageCheese)))
  = maxSteps.
Proof. vm_compute. reflexivity. Qed.

(** From the initial state, a run in which no tick comes while a solver
    call is in flight never has more Steps than the budget allows. *)
Theorem sequential_runs_respect_budget (events : list Event) :
  sequential initial events →
  (length (history (run initial events)) ≤ maxSteps)%nat.
Proof.
  intros Hseq. apply sequential_run_within_budget; [exact Hseq|].
  vm_compute. lia.
Qed.

Lemma sequential_runs_respect_budget_witness :
  (length (history (run initial (started ++ lap))) ≤ maxSteps)%nat.
Proof.
  apply (sequential_runs_respect_budget (started ++ lap)).
  vm_compute. repeat split.
Defined.

Lemma click_engage (s : State) :
  status s = IDLE → step s ClickEngage = syncStatusRef (handleStartGame s).
Proof.
  intros H. unfold step, handle. now rewrite bool_decide_eq_true_2 by done.
Qed.

(** A start whose fetch fails returns to IDLE with the message of the
    failure; the history is empty, and the current page and the calls in
    flight are what they were. *)
Theorem failed_start_returns_to_idle (s : State) (err : Exn) :
  status s = IDLE →
  let s' :=
    run s [ClickEngage; Settle (length (inflight s)) (Page (Throw err))] in
  status s' = IDLE
  ∧ error s' = Some ("Failed to start: " +:+ message err)
  ∧ history s' = []
  ∧ currentWikiPage s' = currentWikiPage s
  ∧ inflight s' = inflight s.
Proof.
  intros Hst s'. subst s'. rewrite run_cons, (click_engage s Hst).
  destruct s as [sp tp cp h st er hl sv0 sr inf]. simpl in Hst. subst st.
  unfold handleStartGame. state_simpl.
  settle_with (lookup_last inf (StartFetch sp)). rewrite delete_last.
  cbn [run fold_left].
  split; [reflexivity|]. split; [reflexivity|]. split; [reflexivity|].
  split; reflexivity.
Qed.

Lemma failed_start_returns_to_idle_witness :
  let s' :=
    run initial [ClickEngage; Settle 0 (Page (Throw (Error "The page does not exist.")))] in
  status s' = IDLE
  ∧ error s' = Some ("Failed to start: " +:+ "The page does not exist.")
  ∧ history s' = []
  ∧ currentWikiPage s' = None
  ∧ inflight s' = [].
Proof.
  apply (failed_start_returns_to_idle initial (Error "The page does not exist.")).
  reflexivity.
Defined.

End OrchestratorFurther.

(** ** The local solver and the orchestrator together *)

Section DirectMatchRun.
Import App Samples vectorService.

Variable toFixed : float → nat → string.

(** The direct match ends the run.  When an outgoing link of the page
    equals the non-empty target up to case, the answer of the local solver
    passes the target test of the orchestrator after the pause, the page is
    fetched, and the run is a SUCCESS with one more Step, whatever state
    the model is in. *)
Theorem direct_match_reaches_success (loaded : Completion (option Extractor))
    (s : State) (k : nat) (page : WikiPage) (target : string)
    (path : list string) (sv : SolverType) (t0 t1 : float) (now : Z)
    (final : WikiPage) :
  inflight s !! k = Some (SolverCall page target path sv t0) →
  target ≠ "" →
  (∃ l, l ∈ links page ∧ toLowerCase l = toLowerCase target) →
  let answer := (getNextMove toFixed loaded page target path).2 in
  let s' :=
    run s [Settle k (Move answer t1 now); Settle k Elapsed;
           Settle k (Page (Return final))] in
  status s' = SUCCESS
  ∧ currentWikiPage s' = Some final
  ∧ length (history s') = S (length (history s)).
Proof.
  intros Hk Htarget (l0 & Hl0 & Heq0) answer s'. subst s' answer.
  destruct (find_first (λ l, String.eqb (toLowerCase l) (toLowerCase target))
              (links page) l0 Hl0) as (i & l & Hi & Hl & _ & Hfind).
  { now apply String.eqb_eq. }
  apply String.eqb_eq in Hl.
  assert (Hne : truthy_string l = true).
  { unfold truthy_string. apply negb_true_iff, String.eqb_neq.
    intros ->. apply Htarget, toLowerCase_empty. now rewrite <- Hl. }
  assert (Hanswer : (getNextMove toFixed loaded page target path).2 =
    Return {| reasoning :=
                VString ("Target identified! " +:+ dquote +:+ l +:+ dquote
                         +:+ " is a direct match for the goal.");
              selectedLink := VString l |}).
  { unfold getNextMove. rewrite Hfind. simpl. now rewrite Hne. }
  rewrite Hanswer.
  assert (Hnorm : String.eqb (normalizeTitle l) (normalizeTitle target) = true).
  { apply String.eqb_eq. rewrite !normalizeTitle_lower_first. now rewrite Hl. }
  destruct s as [sp tp cp h st er hl sv0 sr inf]. simpl in Hk.
  rewrite run_cons, (settle_at_record _ _ _ _ _ _ _ _ _ _ _ _ _ Hk). state_simpl.
  match goal with
  | |- context [<[k := ?c]> inf] =>
      pose proof (lookup_insert_same inf k c _ Hk) as H1
  end.
  rewrite run_cons, (settle_at_record _ _ _ _ _ _ _ _ _ _ _ _ _ H1). state_simpl.
  cbn [normalizeLink selectedLink]. rewrite Hnorm. state_simpl.
  match goal with
  | |- context [<[k := ?c]> (<[k := ?c1]> inf)] =>
      pose proof (lookup_insert_same _ k c _ H1) as H2
  end.
  rewrite run_cons, (settle_at_record _ _ _ _ _ _ _ _ _ _ _ _ _ H2). state_simpl.
  cbn [run fold_left].
  split; [reflexivity|]. split; [reflexivity|].
  rewrite length_app. simpl. lia.
Qed.

End DirectMatchRun.

Section DirectMatchRunSample.
Import App Samples vectorService.

Lemma direct_match_reaches_success_witness :
  let s := run initial (ClickSolver VECTORS :: started ++ [Tick 0]) in
  let answer :=
    (getNextMove Number.toFixed (Throw (Error "offline")) pageApollo "Cheese" []).2 in
  let s' :=
    run s [Settle 0 (Move answer 250 1000); Settle 0 Elapsed;
           Settle 0 (Page (Return pageCheese))] in
  status s' = SUCCESS
  ∧ currentWikiPage s' = Some pageCheese
  ∧ length (history s') = S (length (history s)).
Proof.
  apply (direct_match_reaches_success Number.toFixed (Throw (Error "offline"))
           (run initial (ClickSolver VECTORS :: started ++ [Tick 0])) 0
           pageApollo "Cheese" [] VECTORS 0 250 1000 pageCheese).
  - reflexivity.
  - discriminate.
  - exists "Cheese". split; [|reflexivity].
    apply (bool_decide_unpack _). vm_compute. exact I.
Defined.

End DirectMatchRunSample.

(** ** The remote solvers: keys, failed requests, empty and broken answers *)

Section RemoteFurther.
Import remote.

Variable JSON_parse : string → Completion Value.

Lemma resolveKey_set (c : ascii) (rest : string) (envKey : option string) :
  resolveKey (Some (String c rest)) envKey = Return (String c rest).
Proof. reflexivity. Qed.

Lemma resolveKey_missing (apiKey envKey : option string) :
  mguard_truthy apiKey = None → mguard_truthy envKey = None →
  resolveKey apiKey envKey =
    Throw (Error "API Key is missing. Please provide it in the settings.").
Proof. intros H1 H2. unfold resolveKey. now rewrite H1, H2. Qed.

(** Without a key (none given or an empty one, and none or an empty one in
    the environment) each remote solver throws its [API Key is missing]
    error, whatever the request would have answered. *)
Theorem remote_missing_key (apiKey envKey : option string)
    (generated : Completion geminiService.GenerateContentResponse)
    (completed : Completion openaiService.ChatCompletion)
    (created : Completion claudeService.Message)
    (currentPage : WikiPage) (targetPage : string) (history : list string) :
  mguard_truthy apiKey = None → mguard_truthy envKey = None →
  let missing :=
    Throw (Error "API Key is missing. Please provide it in the settings.") in
  geminiService.getNextMove JSON_parse generated currentPage targetPage history
    apiKey envKey = missing
  ∧ openaiService.getNextMove JSON_parse completed currentPage targetPage history
      apiKey envKey = missing
  ∧ claudeService.getNextMove JSON_parse created currentPage targetPage history
      apiKey envKey = missing.
Proof.
  intros H1 H2 missing. subst missing.
  unfold geminiService.getNextMove, openaiService.getNextMove,
    claudeService.getNextMove.
  rewrite (resolveKey_missing _ _ H1 H2). repeat split.
Qed.

(** The request itself is awaited outside the [try] block: when it fails,
    its exception leaves each remote solver as it is; no fallback link is
    returned. *)
Theorem remote_request_failure_propagates (e : Exn) (currentPage : WikiPage)
    (targetPage : string) (history : list string) (c : ascii) (rest : string)
    (envKey : option string) :
  geminiService.getNextMove JSON_parse (Throw e) currentPage targetPage history
    (Some (String c rest)) envKey = Throw e
  ∧ openaiService.getNextMove JSON_parse (Throw e) currentPage targetPage history
      (Some (String c rest)) envKey = Throw e
  ∧ claudeService.getNextMove JSON_parse (Throw e) currentPage targetPage history
      (Some (String c rest)) envKey = Throw e.
Proof. repeat split. Qed.

(** Once the request has answered, the Gemini and the OpenAI solver always
    return an answer: no text of the response, no shape of the parsed value
    and no missing choice makes them throw. *)
Theorem gemini_openai_always_answer
    (response : geminiService.GenerateContentResponse)
    (completion : openaiService.ChatCompletion) (currentPage : WikiPage)
    (targetPage : string) (history : list string) (c : ascii) (rest : string)
    (envKey : option string) :
  (∃ r, geminiService.getNextMove JSON_parse (Return response) currentPage
          targetPage history (Some (String c rest)) envKey = Return r)
  ∧ (∃ r, openaiService.getNextMove JSON_parse (Return completion) currentPage
            targetPage history (Some (String c rest)) envKey = Return r).
Proof.
  split; [apply gemini_returns|apply openai_returns]; reflexivity.
Qed.

(** The Claude solver returns an answer as soon as the message has a first
    content block, with or without text. *)
Theorem claude_answers_with_first_block (block : option string)
    (others : list (option string)) (currentPage : WikiPage)
    (targetPage : string) (history : list string) (c : ascii) (rest : string)
    (envKey : option string) :
  ∃ r, claudeService.getNextMove JSON_parse
         (Return (claudeService.mkMessage (block :: others))) currentPage
         targetPage history (Some (String c rest)) envKey = Return r.
Proof. apply claude_returns. reflexivity. Qed.

(** A text that [JSON.parse] rejects, or that parses to [null], makes the
    Gemini and the OpenAI solver answer with the first link of the page and
    the rationale of the [catch] block. *)
Theorem broken_text_gives_fallback (text : option string)
    (others : list (option string)) (currentPage : WikiPage)
    (targetPage : string) (history : list string) (c : ascii) (rest : string)
    (envKey : option string) :
  (∃ e, JSON_parse (default "{}" (mguard_truthy text)) = Throw e)
  ∨ JSON_parse (default "{}" (mguard_truthy text)) = Return VNull →
  let answer :=
    Return {| reasoning :=
                VString "Failed to parse AI response. Picking first link.";
              selectedLink := first (links currentPage) |} in
  geminiService.getNextMove JSON_parse
    (Return (geminiService.mkResponse text)) currentPage targetPage history
    (Some (String c rest)) envKey = answer
  ∧ openaiService.getNextMove JSON_parse
      (Return (openaiService.mkCompletion (text :: others))) currentPage
      targetPage history (Some (String c rest)) envKey = answer.
Proof.
  intros H answer. subst answer.
  unfold geminiService.getNextMove, openaiService.getNextMove.
  rewrite resolveKey_set. simpl.
  destruct H as [[e ->]| ->]; split; reflexivity.
Qed.

(** An empty text is parsed as the empty object, and so is a missing text
    by the Gemini and the OpenAI solver: the answer is the first link of
    the page with the rationale [No reasoning provided.].  The Claude
    solver, given a first block without text, throws at [content.replace]
    inside its [try], and answers from its [catch] block: the first link
    with the rationale of the parse failure, whatever [JSON.parse] does. *)
Theorem empty_text_gives_first_link (others : list (option string))
    (currentPage : WikiPage) (targetPage : string) (history : list string)
    (c : ascii) (rest : string) (envKey : option string) :
  JSON_parse "{}" = Return (VObject []) →
  let answer :=
    Return {| reasoning := VString "No reasoning provided.";
              selectedLink := first (links currentPage) |} in
  geminiService.getNextMove JSON_parse
    (Return (geminiService.mkResponse None)) currentPage targetPage history
    (Some (String c rest)) envKey = answer
  ∧ geminiService.getNextMove JSON_parse
      (Return (geminiService.mkResponse (Some ""))) currentPage targetPage
      history (Some (String c rest)) envKey = answer
  ∧ openaiService.getNextMove JSON_parse
      (Return (openaiService.mkCompletion (None :: others))) currentPage
      targetPage history (Some (String c rest)) envKey = answer
  ∧ openaiService.getNextMove JSON_parse
      (Return (openaiService.mkCompletion (Some "" :: others))) currentPage
      targetPage history (Some (String c rest)) envKey = answer
  ∧ claudeService.getNextMove JSON_parse
      (Return (claudeService.mkMessage (Some "" :: others))) currentPage
      targetPage history (Some (String c rest)) envKey = answer
  ∧ claudeService.getNextMove JSON_parse
      (Return (claudeService.mkMessage (None :: others))) currentPage
      targetPage history (Some (String c rest)) envKey =
      Return {| reasoning :=
                  VString "Failed to parse AI response. Picking first link.";
                selectedLink := first (links currentPage) |}.
Proof.
  intros H answer. subst answer.
  unfold geminiService.getNextMove, openaiService.getNextMove,
    claudeService.getNextMove.
  rewrite resolveKey_set. simpl. rewrite H. simpl.
  unfold or_else. simpl. repeat split.
Qed.

End RemoteFurther.

Section RemoteFurtherRuns.
Import remote Samples.

Lemma remote_missing_key_witness :
  let missing :=
    Throw (Error "API Key is missing. Please provide it in the settings.") in
  geminiService.getNextMove parseLiteral
    (Return (geminiService.mkResponse (Some "{}"))) pageApollo "Cheese" []
    (Some "") None = missing
  ∧ openaiService.getNextMove parseLiteral
      (Return (openaiService.mkCompletion [Some "{}"])) pageApollo "Cheese" []
      (Some "") None = missing
  ∧ claudeService.getNextMove parseLiteral
      (Return (claudeService.mkMessage [Some "{}"])) pageApollo "Cheese" []
      (Some "") None = missing.
Proof.
  apply (remote_missing_key parseLiteral (Some "") None).
  - reflexivity.
  - reflexivity.
Defined.

Lemma broken_text_gives_fallback_witness :
  let answer :=
    Return {| reasoning :=
                VString "Failed to parse AI response. Picking first link.";
              selectedLink := VString "Moon" |} in
  geminiService.getNextMove parseLiteral
    (Return (geminiService.mkResponse (Some "I cannot decide."))) pageApollo
    "Cheese" [] (Some "key") None = answer
  ∧ openaiService.getNextMove parseLiteral
      (Return (openaiService.mkCompletion [Some "I cannot decide."])) pageApollo
      "Cheese" [] (Some "key") None = answer.
Proof.
  apply (broken_text_gives_fallback parseLiteral (Some "I cannot decide.") []
           pageApollo "Cheese" [] "k"%char "ey" None).
  left. exists (SyntaxError "Unexpected token"). reflexivity.
Defined.

Lemma empty_text_gives_first_link_witness :
  let answer :=
    Return {| reasoning := VString "No reasoning provided.";
              selectedLink := VString "Moon" |} in
  geminiService.getNextMove parseLiteral
    (Return (geminiService.mkResponse None)) pageApollo "Cheese" []
    (Some "key") None = answer
  ∧ geminiService.getNextMove parseLiteral
      (Return (geminiService.mkResponse (Some ""))) pageApollo "Cheese" []
      (Some "key") None = answer
  ∧ openaiService.getNextMove parseLiteral
      (Return (openaiService.mkCompletion [None])) pageApollo "Cheese" []
      (Some "key") None = answer
  ∧ openaiService.getNextMove parseLiteral
      (Return (openaiService.mkCompletion [Some ""])) pageApollo "Cheese" []
      (Some "key") None = answer
  ∧ claudeService.getNextMove parseLiteral
      (Return (claudeService.mkMessage [Some ""])) pageApollo "Cheese" []
      (Some "key") None = answer
  ∧ claudeService.getNextMove parseLiteral
      (Return (claudeService.mkMessage [None])) pageApollo "Cheese" []
      (Some "key") None =
      Return {| reasoning :=
                  VString "Failed to parse AI response. Picking first link.";
                selectedLink := VString "Moon" |}.
Proof.
  apply (empty_text_gives_first_link parseLiteral [] pageApollo "Cheese" []
           "k"%char "ey" None).
  reflexivity.
Defined.

End RemoteFurtherRuns.

(** ** Claude's answer before it is parsed *)

Section ClaudeContent.
Import claudeService.

Lemma fromFirstBrace_spec (s s' : string) :
  fromFirstBrace s = Some s' →
  ∃ pre t, s = pre +:+ s' ∧ s' = String "{" t ∧ includes "{" pre = false.
Proof.
  revert s'. induction s as [|c u IH]; intros s' H; simpl in H; [discriminate|].
  destruct (Ascii.eqb_spec c "{") as [->|Hc].
  - injection H as <-. now exists "", u.
  - destruct (IH s' H) as (pre & t & -> & -> & Hpre).
    exists (String c pre), t. repeat split. simpl.
    apply Ascii.eqb_neq in Hc. now rewrite Hc.
Qed.

Lemma fromFirstBrace_none (s : string) :
  fromFirstBrace s = None ↔ includes "{" s = false.
Proof.
  induction s as [|c u IH]; simpl; [done|].
  destruct (Ascii.eqb c "{"); simpl; [split; discriminate|exact IH].
Qed.

Lemma uptoLastBrace_spec (s m : string) :
  uptoLastBrace s = Some m →
  ∃ mid post, s = m +:+ post ∧ m = mid +:+ "}" ∧ includes "}" post = false.
Proof.
  revert m. induction s as [|c u IH]; intros m H; simpl in H; [discriminate|].
  destruct (uptoLastBrace u) as [m'|] eqn:Hu.
  - injection H as <-. destruct (IH m' eq_refl) as (mid & post & -> & -> & Hpost).
    now exists (String c mid), post.
  - destruct (Ascii.eqb_spec c "}") as [->|Hc]; [|discriminate].
    injection H as <-. exists "", u. repeat split.
    clear IH. induction u as [|d v IHv]; simpl in *; [done|].
    destruct (uptoLastBrace v); [discriminate|].
    destruct (Ascii.eqb d "}"); [discriminate|]. simpl. now apply IHv.
Qed.

Lemma uptoLastBrace_none (s : string) :
  uptoLastBrace s = None ↔ includes "}" s = false.
Proof.
  induction s as [|c u IH]; simpl; [done|].
  destruct (uptoLastBrace u); simpl.
  - split; [discriminate|]. intros H. apply orb_false_elim in H as [_ H].
    now apply IH in H.
  - destruct (Ascii.eqb c "}"); simpl; [split; discriminate|].
    split; [intros _; now apply IH|done].
Qed.

(** What the pattern [\{[\s\S]*\}] extracts: the text from the first opening
    brace to the last closing brace.  Nothing before the match has an
    opening brace, nothing after it a closing one. *)
Theorem jsonMatch_extracts (s m : string) :
  jsonMatch s = Some m →
  ∃ pre mid post,
    s = pre +:+ m +:+ post
    ∧ m = String "{" (mid +:+ "}")
    ∧ includes "{" pre = false
    ∧ includes "}" post = false.
Proof.
  unfold jsonMatch. intros H.
  destruct (fromFirstBrace s) as [s'|] eqn:Hs; [|discriminate].
  destruct (fromFirstBrace_spec _ _ Hs) as (pre & t & -> & -> & Hpre).
  destruct (uptoLastBrace_spec _ _ H) as (mid & post & E & -> & Hpost).
  destruct mid as [|c mid]; simpl in E.
  - discriminate.
  - injection E as <- E. exists pre, mid, post. rewrite E. auto.
Qed.

Lemma jsonMatch_extracts_witness :
  ∃ pre mid post,
    "Sure: {a} or {b}!" = pre +:+ "{a} or {b}" +:+ post
    ∧ "{a} or {b}" = String "{" (mid +:+ "}")
    ∧ includes "{" pre = false
    ∧ includes "}" post = false.
Proof. apply (jsonMatch_extracts "Sure: {a} or {b}!" "{a} or {b}"). reflexivity. Defined.

(** There is no match exactly when the text has no opening brace, or no
    closing brace after the first opening one. *)
Theorem jsonMatch_none (s : string) :
  jsonMatch s = None
  ↔ includes "{" s = false
    ∨ ∃ pre rest, s = pre +:+ String "{" rest
                ∧ includes "{" pre = false ∧ includes "}" rest = false.
Proof.
  unfold jsonMatch. destruct (fromFirstBrace s) as [s'|] eqn:Hs.
  - destruct (fromFirstBrace_spec _ _ Hs) as (pre & t & -> & -> & Hpre).
    rewrite uptoLastBrace_none. simpl. split.
    + intros H. right. now exists pre, t.
    + intros [H|(pre' & rest & E & Hpre' & Hrest)].
      * apply fromFirstBrace_none in H. congruence.
      * assert (Hsame : ∀ p q u v, p +:+ String "{" u = q +:+ String "{" v →
                  includes "{" p = false → includes "{" q = false → u = v).
        { clear. induction p as [|a p IH]; intros [|b q] u v E Hp Hq;
            simpl in *.
          - now injection E.
          - injection E as <- _. now rewrite Ascii.eqb_refl in Hq.
          - injection E as -> _. now rewrite Ascii.eqb_refl in Hp.
          - injection E as -> E. apply orb_false_elim in Hp as [_ Hp].
            apply orb_false_elim in Hq as [_ Hq]. eauto. }
        now rewrite (Hsame _ _ _ _ E Hpre Hpre').
  - split; [|done]. intros _. left. now apply fromFirstBrace_none.
Qed.

Lemma stripFence_no_backtick (f : string) (s : string) :
  includes "`" s = false →
  stripFence (String "`" f) 0 false s = s.
Proof.
  induction s as [|c t IH]; [done|]. cbn [stripFence includes andb]. intros H.
  apply orb_false_elim in H as [Hc Ht].
  apply Ascii.eqb_neq in Hc.
  change (String.prefix (String "`" f) (String c t))
    with (if ascii_dec "`" c then String.prefix f t else false).
  destruct (ascii_dec "`" c) as [E|_]; [now symmetry in E|].
  rewrite IH by exact Ht. reflexivity.
Qed.

(** A text without a backtick has no fence to strip: it is trimmed, and cut
    down to its braces when it has a matching pair. *)
Theorem cleanContent_without_fence (raw : string) :
  includes "`" raw = false →
  cleanContent (Some raw) = Return (default (trim raw) (jsonMatch (trim raw))).
Proof.
  intros H. unfold cleanContent, fence, fenceJson.
  rewrite (stripFence_no_backtick "``json" raw H).
  now rewrite (stripFence_no_backtick "``" raw H).
Qed.

Lemma cleanContent_without_fence_witness :
  cleanContent (Some "  Here you go: {x}  ")
  = Return (default (trim "  Here you go: {x}  ")
              (jsonMatch (trim "  Here you go: {x}  "))).
Proof. apply cleanContent_without_fence. reflexivity. Defined.

End ClaudeContent.

(** ** [loadModel] *)

Section LoadModel.
Import vectorService.

Lemma loadStep_keeps_invariant (m : Loader) (e : LoadEvent) :
  loaderInvariant m → loaderInvariant (loadStep m e).1.
Proof.
  unfold loaderInvariant.
  destruct m as [x l n w]; simpl.
  intros [(-> & -> & ->)|(-> & ->)]; destruct e as [|[y|err]|]; simpl;
    try destruct x; try destruct w; simpl; auto.
Qed.

Lemma loadRun_keeps_invariant (events : list LoadEvent) :
  ∀ m, loaderInvariant m → loaderInvariant (loadRun m events).
Proof.
  induction events as [|e rest IH]; intros m H; simpl; [exact H|].
  apply IH, loadStep_keeps_invariant, H.
Qed.

Lemma loadRun_app (m : Loader) (events events' : list LoadEvent) :
  loadRun m (events ++ events') = loadRun (loadRun m events) events'.
Proof. apply fold_left_app. Qed.

(** Calls of [loadModel] converge on one load: whatever the calls and the
    timers do, at most one call awaits the pipeline, and it does so exactly
    while [isLoading] is set. *)
Theorem loadModel_single_load (events : list LoadEvent) :
  let m := loadRun unloaded events in
  (loading m ≤ 1)%nat ∧ (isLoading m = true ↔ loading m = 1%nat).
Proof.
  intros m. subst m.
  destruct (loadRun_keeps_invariant events unloaded) as [(Hl & Hn & _)|(Hl & Hn)].
  - right. now split.
  - rewrite Hl, Hn. split; [lia|done].
  - rewrite Hl, Hn. split; [lia|]. split; [discriminate|lia].
Qed.

Lemma loadStep_keeps_extractor (m : Loader) (e : LoadEvent) (x : Extractor) :
  loaderInvariant m → extractor m = Some x → extractor (loadStep m e).1 = Some x.
Proof.
  unfold loaderInvariant. destruct m as [y l n w]; simpl.
  intros [(-> & -> & ->)|(-> & ->)] Hx; [discriminate|].
  subst y. destruct e as [|[z|err]|]; simpl; try destruct w; reflexivity.
Qed.

(** The model is loaded once: when a load has succeeded, no later call,
    settled pipeline or timer changes the extractor, and every later call
    returns that extractor at once. *)
Theorem loadModel_loaded_once (events later : list LoadEvent) (x : Extractor) :
  extractor (loadRun unloaded events) = Some x →
  let m := loadRun unloaded (events ++ later) in
  extractor m = Some x ∧ loadStep m Invoke = (m, Some (Return (Some x))).
Proof.
  intros Hx m. subst m. rewrite loadRun_app.
  assert (Hinv : loaderInvariant (loadRun unloaded events)).
  { apply loadRun_keeps_invariant. right. now split. }
  revert Hx Hinv. generalize (loadRun unloaded events).
  induction later as [|e rest IH]; intros m Hx Hinv; simpl.
  - split; [exact Hx|]. now rewrite Hx.
  - apply IH.
    + now apply loadStep_keeps_extractor.
    + now apply loadStep_keeps_invariant.
Qed.

(** A call that arrives while a load is in flight does not start a second
    load; when that load fails, the call that started it gets the
    exception, and the call that waited returns [null] at its next timer
    instead of loading again. *)
Theorem loadModel_waiter_gets_null (events : list LoadEvent) (err : Exn) :
  isLoading (loadRun unloaded events) = true →
  let m := loadRun unloaded events in
  let arrived := loadStep m Invoke in
  let failed := loadStep arrived.1 (PipelineSettled (Throw err)) in
  let woken := loadStep failed.1 PollTimer in
  arrived.2 = None
  ∧ loading arrived.1 = 1%nat
  ∧ failed.2 = Some (Throw err)
  ∧ woken.2 = Some (Return None)
  ∧ extractor woken.1 = None
  ∧ isLoading woken.1 = false.
Proof.
  intros Hl m arrived failed woken. subst woken failed arrived m.
  destruct (loadRun_keeps_invariant events unloaded) as [(_ & Hn & Hx)|(Hl' & _)].
  - right. now split.
  - destruct (loadRun unloaded events) as [x l n w]. simpl in *. subst.
    repeat split.
  - congruence.
Qed.

End LoadModel.

Section LoadModelRuns.
Import vectorService Samples.

Lemma loadModel_loaded_once_witness :
  let m :=
    loadRun unloaded
      ([Invoke; Invoke; PipelineSettled (Return model2)]
       ++ [PollTimer; Invoke; PipelineSettled (Throw (Error "offline"))]) in
  extractor m = Some model2 ∧ loadStep m Invoke = (m, Some (Return (Some model2))).
Proof.
  apply (loadModel_loaded_once
           [Invoke; Invoke; PipelineSettled (Return model2)]
           [PollTimer; Invoke; PipelineSettled (Throw (Error "offline"))]
           model2).
  reflexivity.
Defined.

Lemma loadModel_waiter_gets_null_witness :
  let m := loadRun unloaded [Invoke] in
  let arrived := loadStep m Invoke in
  let failed := loadStep arrived.1 (PipelineSettled (Throw (Error "offline"))) in
  let woken := loadStep failed.1 PollTimer in
  arrived.2 = None
  ∧ loading arrived.1 = 1%nat
  ∧ failed.2 = Some (Throw (Error "offline"))
  ∧ woken.2 = Some (Return None)
  ∧ extractor woken.1 = None
  ∧ isLoading woken.1 = false.
Proof.
  apply (loadModel_waiter_gets_null [Invoke] (Error "offline")).
  reflexivity.
Defined.

End LoadModelRuns.
